(** * Glean event metrics: the Python binding [glean/metrics/event.py]

    The file embeds [EventMetricType] (the developer-facing wrapper of
    glean-core/python/glean/metrics/event.py) together with the native event
    metric it delegates to, and proves the properties the specification
    states about recording events and reading them back.

    Layout:
    - [Py]: the Python values the wrapper inspects (dict keys, enum
      members, [str]) and dicts with their insertion semantics;
    - [Core]: the native [EventMetric] behind [self._inner], which lives in
      the Rust core and is reached through the generated [_uniffi] module;
    - [Binding]: [EventMetricType.record], [test_get_value] and
      [test_get_num_recorded_errors] as written in the source;
    - the theorems. *)

From stdpp Require Import base decidable option list sorting strings pretty gmap fin_maps.

Set Default Proof Using "Type".
Open Scope string_scope.
Open Scope list_scope.

(* ===================================================================== *)
(** ** Python values and dicts *)
(* ===================================================================== *)

Module Py.

(** Hashable Python values that can occur as keys of the [extra] dict (and
    as its values, and as the [extra] argument itself when the caller
    passes neither a dict nor an [EventExtras]): [None], booleans, integers,
    strings and enum members.  [PyEnum cls member value] is the member
    [cls.member] of a plain [enum.Enum] class; its [value] is whatever the
    class declares, not necessarily a [str]. *)
Inductive PyVal : Type :=
  | PyNone
  | PyBool (b : bool)
  | PyInt (z : Z)
  | PyStr (s : string)
  | PyEnum (cls member : string) (value : PyVal).

(** The exceptions a call of [record] can end in. *)
Inductive PyExc : Type :=
  | ValueError
  | AttributeError.

(** What a Python call does: it returns a value or raises. *)
Inductive Outcome (A : Type) : Type :=
  | Returns (a : A)
  | Raises (e : PyExc).

Arguments Returns {A} a.
Arguments Raises {A} e.

#[export] Instance Outcome_ret : MRet Outcome := @Returns.

#[export] Instance Outcome_bind : MBind Outcome := λ A B f o,
  match o with
  | Returns a => f a
  | Raises e => Raises e
  end.

#[export] Instance Outcome_fmap : FMap Outcome := λ A B f o,
  match o with
  | Returns a => Returns (f a)
  | Raises e => Raises e
  end.

(** [isinstance(key, enum.Enum)] *)
Definition isinstance_Enum (key : PyVal) : bool :=
  match key with PyEnum _ _ _ => true | _ => false end.

(** [isinstance(key, str)] *)
Definition isinstance_str (key : PyVal) : bool :=
  match key with PyStr _ => true | _ => false end.

(** [key.value] of an enum member. *)
Definition enum_value (key : PyVal) : PyVal :=
  match key with PyEnum _ _ v => v | other => other end.

(** [sys.int_info.default_max_str_digits]: the longest decimal form that
    [str] of an [int] produces (CPython 3.11 and the security releases
    before it, with the limit at its default). *)
Definition default_max_str_digits : nat := 4300.

(** The number of digits of the decimal form of [z], the sign apart. *)
Definition decimal_digits (z : Z) : nat :=
  String.length (pretty (Z.abs_N z)).

(** The decimal form of [z] has more than [default_max_str_digits] digits. *)
Definition exceeds_max_str_digits (z : Z) : bool :=
  (default_max_str_digits <? decimal_digits z)%nat.

Arguments exceeds_max_str_digits : simpl never.

(** The builtin [str(key)].  For an [int] whose decimal form is longer than
    the limit it raises [ValueError]. *)
Definition str (key : PyVal) : Outcome string :=
  match key with
  | PyNone => Returns "None"
  | PyBool true => Returns "True"
  | PyBool false => Returns "False"
  | PyInt z => if exceeds_max_str_digits z then Raises ValueError else Returns (pretty z)
  | PyStr s => Returns s
  | PyEnum cls member _ => Returns (cls +:+ "." +:+ member)
  end.

(** Numbers compare by value in Python, [True == 1] and [False == 0]. *)
Definition as_number (v : PyVal) : option Z :=
  match v with
  | PyBool b => Some (if b then 1%Z else 0%Z)
  | PyInt z => Some z
  | _ => None
  end.

(** [a == b] (with equal hashes), the test a dict uses to find a key.
    Members of a plain [Enum] compare by identity. *)
Definition py_eq (a b : PyVal) : bool :=
  match a, b with
  | PyNone, PyNone => true
  | PyStr s, PyStr t => bool_decide (s = t)
  | PyEnum c m _, PyEnum c' m' _ => bool_decide (c = c') && bool_decide (m = m')
  | _, _ =>
      match as_number a, as_number b with
      | Some x, Some y => bool_decide (x = y)
      | _, _ => false
      end
  end.

(** A dict with keys of type [K]: its items in insertion order. *)
Abbreviation dict K V := (list (K * V)) (only parsing).

(** [d[k] = v]: an existing key keeps its place (and its key object) and
    takes the new value, a new key is appended. *)
Fixpoint setitem {K V} (eqb : K → K → bool) (d : dict K V) (k : K) (v : V) : dict K V :=
  match d with
  | [] => [(k, v)]
  | (k', v') :: rest =>
      if eqb k' k then (k', v) :: rest else (k', v') :: setitem eqb rest k v
  end.

(** The rest of a dict comprehension once the items before have gone into
    [acc]: the next key is computed and assigned; a key expression that
    raises ends the comprehension with its exception. *)
Fixpoint comprehension_from {K V} (f : K → Outcome PyVal) (acc : dict PyVal V)
    (d : dict K V) : Outcome (dict PyVal V) :=
  match d with
  | [] => Returns acc
  | (k, v) :: rest =>
      k' ← f k;
      comprehension_from f (setitem py_eq acc k' v) rest
  end.

(** [{f(k): v for k, v in d.items()}] *)
Definition comprehension {K V} (f : K → Outcome PyVal) (d : dict K V)
    : Outcome (dict PyVal V) :=
  comprehension_from f [] d.

Definition keys {K V} (d : dict K V) : list K := d.*1.

(** The argument of [record]: [extra] is annotated
    [Optional[Union[Dict[str, str], EventExtras]]] but Python checks nothing,
    so a caller can pass any object, and a dict with keys and values of any
    kind.  An [EventExtras] instance is represented by what its
    [to_ffi_extra()] returns, a dict from [str] to [str] as the method
    declares (the base class returns the empty dict, subclasses override
    it). *)
Inductive PyObj : Type :=
  | OVal (v : PyVal)
  | ODict (items : dict PyVal PyVal)
  | OExtras (ffi_extra : dict string string).

Definition isinstance_EventExtras (o : PyObj) : bool :=
  match o with OExtras _ => true | _ => false end.

Definition isinstance_dict (o : PyObj) : bool :=
  match o with ODict _ => true | _ => false end.

(** A dict from [str] to [str], seen as a dict of Python values. *)
Definition of_str_dict (d : dict string string) : dict PyVal PyVal :=
  prod_map PyStr PyStr <$> d.

End Py.

Import Py.

(* ===================================================================== *)
(** ** The native event metric behind [self._inner] *)
(* ===================================================================== *)

Module Core.

(** Modelled from the spec: [ErrorType] is imported from [glean.testing],
    which is outside the binding's source file; the kinds are those of the
    specification's error taxonomy. *)
Inductive ErrorType : Type := InvalidValue | InvalidExtraKey | InvalidOverflow.

#[export] Instance ErrorType_eq_dec : EqDecision ErrorType.
Proof. solve_decision. Defined.

#[export] Instance ErrorType_countable : Countable ErrorType.
Proof.
  refine (inj_countable'
    (λ e, match e with InvalidValue => 0 | InvalidExtraKey => 1 | InvalidOverflow => 2 end)
    (λ n, match n with 0 => InvalidValue | 1 => InvalidExtraKey | _ => InvalidOverflow end) _).
  by intros [].
Defined.

(** Modelled from the spec: the lifetime of a metric's data (ping,
    application or user), a field of [CommonMetricData]. *)
Inductive Lifetime : Type := Ping | Application | User.

(** Modelled from the spec: [CommonMetricData] comes from [_uniffi]; identity
    and configuration shared by every metric type. *)
Record CommonMetricData : Type := {
  cmd_category : string;
  cmd_name : string;
  send_in_pings : list string;
  lifetime : Lifetime;
  disabled : bool;
}.

(** Modelled from the spec: [RecordedEvent] comes from [_uniffi].  The
    binding reads and assigns [recording.extra] and compares it with [None],
    so the field is an optional dict. *)
Record RecordedEvent : Type := {
  timestamp : N;
  category : string;
  name : string;
  extra : option (dict string string);
}.

(** Modelled from the spec: [EventMetric] comes from [_uniffi]; it is built
    from the common metric data and the allowed extra keys. *)
Record EventMetric : Type := {
  meta : CommonMetricData;
  allowed_extra_keys : list string;
}.

(** Modelled from the spec: the part of the core's storage that belongs to
    one event metric: the event store (an ordered sequence of events per
    ping), the error recorder (a counter per ping and error kind), the last
    reading of the monotonic clock and the configured per-ping maximum of
    stored events. *)
Record Glean : Type := {
  max_events : nat;
  events : gmap string (list RecordedEvent);
  errors : gmap (string * ErrorType) nat;
  clock : N;
}.

(** Functional updates of the three mutable parts of the storage. *)
Definition with_events (f : gmap string (list RecordedEvent) → gmap string (list RecordedEvent))
    (g : Glean) : Glean :=
  {| max_events := max_events g; events := f (events g);
     errors := errors g; clock := clock g |}.

Definition with_errors (f : gmap (string * ErrorType) nat → gmap (string * ErrorType) nat)
    (g : Glean) : Glean :=
  {| max_events := max_events g; events := events g;
     errors := f (errors g); clock := clock g |}.

Definition with_clock (now : N) (g : Glean) : Glean :=
  {| max_events := max_events g; events := events g;
     errors := errors g; clock := now |}.

(** The documented limit of [record]: the maximum length for values is 100. *)
Definition MAX_LENGTH_EXTRA_VALUE : nat := 100.

(** Modelled from the spec: truncation to the maximum, the first [n]
    characters of [s] (a string is its sequence of bytes). *)
Fixpoint truncate (n : nat) (s : string) : string :=
  match n, s with
  | S n', String c s' => String c (truncate n' s')
  | _, _ => EmptyString
  end.

(** *** Extra-key validator *)

(** Modelled from the spec: section 4.1, one pair at a time.  A key outside
    the allow-list drops the pair with the fault [InvalidExtraKey]; a value
    of an allowed key that is longer than the maximum is truncated and kept
    with the fault [InvalidOverflow]. *)
Definition validate_pair (allowed : list string) (kv : string * string)
    : option (string * string) * list ErrorType :=
  if bool_decide (kv.1 ∈ allowed) then
    if bool_decide (MAX_LENGTH_EXTRA_VALUE < String.length kv.2) then
      (Some (kv.1, truncate MAX_LENGTH_EXTRA_VALUE kv.2), [InvalidOverflow])
    else (Some kv, [])
  else (None, [InvalidExtraKey]).

(** Modelled from the spec: section 4.1, the sanitized mapping plus the list
    of validation faults. *)
Definition validate_extras (allowed : list string) (extras : dict string string)
    : dict string string * list ErrorType :=
  (omap (λ kv, (validate_pair allowed kv).1) extras,
   extras ≫= (λ kv, (validate_pair allowed kv).2)).

(** *** Error recorder *)

(** Modelled from the spec: section 4.2; an unknown counter reads zero. *)
Definition get_num_recorded_errors (e : ErrorType) (ping : string) (g : Glean) : nat :=
  default 0 (errors g !! (ping, e)).

(** Modelled from the spec: section 4.2, [record_error] increments a counter. *)
Definition record_error (ping : string) (e : ErrorType) (g : Glean) : Glean :=
  with_errors <[(ping, e) := S (get_num_recorded_errors e ping g)]> g.

(** *** Event store *)

(** Modelled from the spec: section 4.3, [peek]. *)
Definition peek (ping : string) (g : Glean) : list RecordedEvent :=
  default [] (events g !! ping).

(** Modelled from the spec: the count of a ping's events never exceeds the
    configured maximum, so the store can take one more event for [ping] when
    the count is below it. *)
Definition has_room (ping : string) (g : Glean) : Prop :=
  length (peek ping g) < max_events g.

#[export] Instance has_room_dec ping g : Decision (has_room ping g).
Proof. unfold has_room. apply _. Defined.

(** Modelled from the spec: section 4.3, [append]: the event joins the end of
    the ping's sequence if capacity allows; otherwise it is dropped and the
    overflow is counted. *)
Definition append (ping : string) (ev : RecordedEvent) (g : Glean) : Glean :=
  if decide (has_room ping g)
  then with_events <[ping := peek ping g ++ [ev]]> g
  else record_error ping InvalidOverflow g.

(** *** Event metric engine *)

(** Modelled from the spec: the default of [ping_name] is the first value in
    [send_in_pings]. *)
Definition resolve_ping (m : EventMetric) (ping_name : option string) : option string :=
  match ping_name with
  | Some p => Some p
  | None => head (send_in_pings (meta m))
  end.

(** Modelled from the spec: section 4.4, what one [record] does for one of
    the metric's pings: the faults go to the error recorder, then the event
    is appended. *)
Definition record_in_ping (ev : RecordedEvent) (faults : list ErrorType)
    (ping : string) (g : Glean) : Glean :=
  append ping ev (foldl (λ g' e, record_error ping e g') g faults).

(** Modelled from the spec: section 4.4, [record] of the native
    [EventMetric].  [elapsed] is the time the monotonic clock advanced since
    its last reading; a disabled metric does nothing at all.  The metric's
    pings are a set, [remove_dups] lists each once. *)
Definition record (m : EventMetric) (extras : dict string string) (elapsed : N)
    (g : Glean) : Glean :=
  if disabled (meta m) then g
  else
    let validated := validate_extras (allowed_extra_keys m) extras in
    let now := (clock g + elapsed)%N in
    let ev := {| timestamp := now;
                 category := cmd_category (meta m);
                 name := cmd_name (meta m);
                 extra := Some validated.1 |} in
    foldl (λ g' p, record_in_ping ev validated.2 p g')
          (with_clock now g)
          (remove_dups (send_in_pings (meta m))).

(** Modelled from the spec: section 4.4, [test_get_value] of the native
    [EventMetric]: the call returns its result together with the storage it
    leaves behind.  The read goes through [peek], which is non-destructive,
    so the storage is left as it was; the result is absent when nothing has
    been recorded for the ping.  The events cross the boundary by value. *)
Definition test_get_value (m : EventMetric) (ping_name : option string)
    (g : Glean) : option (list RecordedEvent) * Glean :=
  (p ← resolve_ping m ping_name;
   match peek p g with
   | [] => None
   | recordings => Some recordings
   end,
   g).

(** Modelled from the spec: section 4.4, [test_get_num_recorded_errors] of
    the native [EventMetric] delegates to the error recorder. *)
Definition test_get_num_recorded_errors (m : EventMetric) (e : ErrorType)
    (ping_name : option string) (g : Glean) : nat :=
  match resolve_ping m ping_name with
  | Some p => get_num_recorded_errors e p g
  | None => 0
  end.

(** How many of the [faults] are of kind [e]. *)
Definition count_faults (e : ErrorType) (faults : list ErrorType) : nat :=
  length (filter (λ e', e' = e) faults).

(** What an overflowing [append] adds to the counter of kind [e]. *)
Definition overflow_count (e : ErrorType) (ping : string) (g : Glean) : nat :=
  if decide (has_room ping g) then 0
  else if decide (e = InvalidOverflow) then 1 else 0.

(** The event a [record] call builds. *)
Definition new_event (m : EventMetric) (extras : dict string string) (elapsed : N)
    (g : Glean) : RecordedEvent :=
  {| timestamp := (clock g + elapsed)%N;
     category := cmd_category (meta m);
     name := cmd_name (meta m);
     extra := Some (validate_extras (allowed_extra_keys m) extras).1 |}.

(** Events compared by their timestamps. *)
Definition by_timestamp : relation RecordedEvent :=
  λ a b, (timestamp a ≤ timestamp b)%N.

(** The events of [ping] are stored in the order of their timestamps and none
    is later than the last reading of the clock. *)
Definition chronological (ping : string) (g : Glean) : Prop :=
  StronglySorted by_timestamp (peek ping g)
  ∧ Forall (λ r, (timestamp r ≤ clock g)%N) (peek ping g).

End Core.

Import Core.

(* ===================================================================== *)
(** ** The binding: [EventMetricType] *)
(* ===================================================================== *)

Module Binding.

(** An [EventMetricType] object: its only attribute is [self._inner]. *)
Record EventMetricType : Type := { _inner : EventMetric }.

(** [EventMetricType.__init__] *)
Definition init (common_metric_data : CommonMetricData)
    (allowed_extra_keys : list string) : EventMetricType :=
  {| _inner := {| meta := common_metric_data;
                  allowed_extra_keys := allowed_extra_keys |} |}.

(** An instance of the base class [EventExtras]: [to_ffi_extra] returns [{}]. *)
Definition EventExtras_base : PyObj := OExtras [].

(** The local function [key_to_str] of [record]. *)
Definition key_to_str (key : PyVal) : Outcome PyVal :=
  if isinstance_Enum key then Returns (enum_value key) else PyStr <$> Py.str key.

(** [extra.to_ffi_extra()] *)
Definition to_ffi_extra (extra : PyObj) : dict PyVal PyVal :=
  match extra with
  | OExtras d => of_str_dict d
  | _ => []
  end.

(** [extra.items()] *)
Definition items (extra : PyObj) : dict PyVal PyVal :=
  match extra with
  | ODict d => d
  | _ => []
  end.

(** Lines 61-73 of [record]: the dict that is handed to
    [self._inner.record], or the exception that a key's [str] raised. *)
Definition record_extra (extra : PyObj) : Outcome (dict PyVal PyVal) :=
  if isinstance_EventExtras extra then Returns (to_ffi_extra extra)
  else if isinstance_dict extra then comprehension key_to_str (items extra)
  else Returns [].

(** The native [record] takes a mapping from strings to strings.  A Python
    dict is such a mapping when all its keys and all its values are [str]
    objects. *)
Fixpoint as_string_map (d : dict PyVal PyVal) : option (dict string string) :=
  match d with
  | [] => Some []
  | (PyStr s, PyStr v) :: rest => cons (s, v) <$> as_string_map rest
  | _ :: _ => None
  end.

(** Modelled from the spec: the native method takes a mapping<string,string>
    (section 6); the converter that [_uniffi] generates for it is not in the
    binding's source file.  A dict with a key or a value that is not a [str]
    is no such mapping and cannot cross the boundary: the generated
    converter encodes every key and value as a string and the call raises
    from there, before the native method runs. *)
Definition lower (d : dict PyVal PyVal) : Outcome (dict string string) :=
  match as_string_map d with
  | Some extras => Returns extras
  | None => Raises AttributeError
  end.

(** [EventMetricType.record].  The method returns [None] to its caller; the
    result here is the storage after the call, or the exception the call
    ends in.  [elapsed] is the advance of the monotonic clock, see
    [Core.record]. *)
Definition record (self : EventMetricType) (extra : PyObj) (elapsed : N)
    (g : Glean) : Outcome Glean :=
  handed_over ← record_extra extra;
  extras ← lower handed_over;
  Returns (Core.record (_inner self) extras elapsed g).

(** [if recordings:] holds for a list that is neither [None] nor empty. *)
Definition truthy {A} (recordings : option (list A)) : bool :=
  match recordings with
  | Some (_ :: _) => true
  | _ => false
  end.

(** The loop body of [test_get_value]:
    [if recording.extra is None: recording.extra = {}]. *)
Definition translate_no_extras (recording : RecordedEvent) : RecordedEvent :=
  match extra recording with
  | None => {| timestamp := timestamp recording;
               category := category recording;
               name := name recording;
               extra := Some [] |}
  | Some _ => recording
  end.

(** [EventMetricType.test_get_value]: the native call, then the loop over
    what it returned.  The events come from the native metric by value, so
    assigning their [extra] field changes the returned objects only; the
    storage is the one the native call left. *)
Definition test_get_value (self : EventMetricType) (ping_name : option string)
    (g : Glean) : option (list RecordedEvent) * Glean :=
  let '(recordings, g') := Core.test_get_value (_inner self) ping_name g in
  (if truthy recordings then fmap (M := list) translate_no_extras <$> recordings
   else recordings, g').

(** [EventMetricType.test_get_num_recorded_errors] *)
Definition test_get_num_recorded_errors (self : EventMetricType) (error_type : ErrorType)
    (ping_name : option string) (g : Glean) : nat :=
  Core.test_get_num_recorded_errors (_inner self) error_type ping_name g.

(** The dict [record] hands over is one the native method is typed for. *)
Definition ffi_accepts (extra : PyObj) : Prop :=
  ∃ extras, record_extra extra ≫= lower = Returns extras.

(** [ping_name] (or, when it is [None], its default) names the ping [p], one
    of the pings the metric is sent in. *)
Definition target_ping (self : EventMetricType) (ping_name : option string)
    (p : string) : Prop :=
  resolve_ping (_inner self) ping_name = Some p
  ∧ p ∈ send_in_pings (meta (_inner self)).

(** Nothing is stored for the ping that [ping_name] resolves to. *)
Definition nothing_recorded (self : EventMetricType) (ping_name : option string)
    (g : Glean) : Prop :=
  ∀ p, resolve_ping (_inner self) ping_name = Some p → peek p g = [].

(** The recorder counts [e] for the pings of an enabled metric only. *)
Definition counts_for (self : EventMetricType) (p : string) : Prop :=
  disabled (meta (_inner self)) = false ∧ p ∈ send_in_pings (meta (_inner self)).

#[export] Instance counts_for_dec self p : Decision (counts_for self p).
Proof. unfold counts_for. apply _. Defined.

(** [str(key)] returns for this key, or the key is an enum member, whose
    value is taken as it is. *)
Definition coercible_key (key : PyVal) : bool :=
  match key with
  | PyInt z => negb (exceeds_max_str_digits z)
  | _ => true
  end.

(** A key that [record] turns into a [str]: a string, an enum member that
    declares a string, or any other key that [str] converts. *)
Definition acceptable_key (key : PyVal) : bool :=
  match key with
  | PyEnum _ _ value => isinstance_str value
  | other => coercible_key other
  end.

(** An argument of [record] as the binding expects it: anything that is not
    a dict, or a dict whose keys are acceptable and whose values are
    strings. *)
Definition acceptable (extra : PyObj) : bool :=
  match extra with
  | ODict d => forallb (λ kv, acceptable_key kv.1 && isinstance_str kv.2) d
  | _ => true
  end.

End Binding.

Import Binding.

(* ===================================================================== *)
(** ** Running the definitions *)
(* ===================================================================== *)

Module Samples.

Definition click : EventMetricType :=
  init {| cmd_category := "ui"; cmd_name := "click";
          send_in_pings := ["events"]; lifetime := Ping; disabled := false |}
       ["reason"].

Definition click_disabled : EventMetricType :=
  init {| cmd_category := "ui"; cmd_name := "click";
          send_in_pings := ["events"]; lifetime := Ping; disabled := true |}
       ["reason"].

Definition fresh : Glean :=
  {| max_events := 500; events := ∅; errors := ∅; clock := 0 |}.

(** A storage whose only event was stored without extras. *)
Definition without_extras : Glean :=
  {| max_events := 500;
     events := {[ "events" := [ {| timestamp := 1; category := "ui"; name := "click";
                                   extra := None |} ] ]};
     errors := ∅; clock := 1 |}.

(** ["x" * n] *)
Fixpoint xs (n : nat) : string :=
  match n with
  | 0 => EmptyString
  | S n' => "x" +:+ xs n'
  end.

(** The smallest integer with 4301 decimal digits. *)
Definition long_int : Z := Z.of_N (10 ^ 4300)%N.

End Samples.

(* ===================================================================== *)
(** ** Observing dicts and native results *)
(* ===================================================================== *)

Module Observe.

(** [d.get(k)]: the value of the item whose key equals [k], if there is one. *)
Fixpoint getitem {V} (d : dict PyVal V) (k : PyVal) : option V :=
  match d with
  | [] => None
  | (k', v) :: rest => if py_eq k' k then Some v else getitem rest k
  end.

(** No two items of [d] have equal keys, the invariant of a Python dict. *)
Fixpoint distinct_keys {V} (d : dict PyVal V) : Prop :=
  match d with
  | [] => True
  | (k, _) :: rest => Forall (λ k', py_eq k k' = false) (keys rest) ∧ distinct_keys rest
  end.

(** The items of [d] with [f] applied to each key in turn, nothing merged;
    the first key on which [f] raises ends it. *)
Fixpoint map_keys {K V} (f : K → Outcome PyVal) (d : dict K V) : Outcome (dict PyVal V) :=
  match d with
  | [] => Returns []
  | (k, v) :: rest =>
      k' ← f k;
      rest' ← map_keys f rest;
      Returns ((k', v) :: rest')
  end.

(** The items of [d] with [key_to_str] applied to each key, nothing merged. *)
Definition coerce_keys {V} (d : dict PyVal V) : Outcome (dict PyVal V) :=
  map_keys key_to_str d.

(** The items of [d] assigned one after the other to the dict [acc]. *)
Definition assign_all {V} (acc d : dict PyVal V) : dict PyVal V :=
  foldl (λ a kv, setitem py_eq a kv.1 kv.2) acc d.

(** [key_to_str(key)] returns a key equal to [c]. *)
Definition coerces_to (key c : PyVal) : bool :=
  match key_to_str key with
  | Returns k' => py_eq k' c
  | Raises _ => false
  end.

(** [str] converts every key of [d] that is not an enum member. *)
Definition coercible {V} (d : dict PyVal V) : bool :=
  forallb coercible_key (keys d).

(** Lines 91-96 of [test_get_value]: what the wrapper does with the value
    that [self._inner.test_get_value(ping_name)] returned, whatever it is. *)
Definition translate_recordings (recordings : option (list RecordedEvent))
    : option (list RecordedEvent) :=
  if truthy recordings then fmap (M := list) translate_no_extras <$> recordings
  else recordings.

End Observe.

Import Observe.

(* ===================================================================== *)
(** ** Facts about dicts *)
(* ===================================================================== *)

Lemma py_eq_refl (a : PyVal) : py_eq a a = true.
Proof.
  destruct a as [|[]| | |]; simpl; rewrite ?bool_decide_eq_true_2; done.
Qed.

(** Keys that are equal are equal to the same keys. *)
Lemma py_eq_congr (a b c : PyVal) :
  py_eq a b = true → py_eq a c = py_eq b c.
Proof.
  destruct a as [|[]| | |], b as [|[]| | |]; simpl; try done;
    rewrite ?andb_true_iff, ?bool_decide_eq_true; intros H;
    destruct_and?; simplify_eq; try done;
    destruct c as [|[]| | |]; simpl; try done;
    repeat case_bool_decide; simplify_eq; done.
Qed.

Lemma py_eq_sym (a b : PyVal) : py_eq a b = py_eq b a.
Proof.
  destruct (py_eq a b) eqn:Hab.
  - by rewrite <- (py_eq_congr a b a Hab), py_eq_refl.
  - destruct (py_eq b a) eqn:Hba; [|done].
    by rewrite <- (py_eq_congr b a b Hba), py_eq_refl in Hab.
Qed.


Lemma py_eq_PyStr (a : PyVal) (s : string) :
  py_eq a (PyStr s) = true → a = PyStr s.
Proof.
  destruct a as [|[]| | |]; simpl; try done.
  by intros ->%bool_decide_eq_true.
Qed.

Section dict_facts.
Context {V : Type}.
Implicit Types (d acc : dict PyVal V) (k c : PyVal) (v : V).

Lemma keys_setitem_elem k0 acc k v :
  k0 ∈ keys (setitem py_eq acc k v) → k0 ∈ keys acc ∨ k0 = k.
Proof.
  unfold keys. induction acc as [|[k' v'] acc IH]; simpl.
  - rewrite list_elem_of_singleton. by right.
  - destruct (py_eq k' k); simpl; rewrite !elem_of_cons; [by left|].
    intros [->|Hin]; [by left; left|].
    destruct (IH Hin) as [?|?]; [left; by right | by right].
Qed.

Lemma values_setitem_elem v0 acc k v :
  v0 ∈ (setitem py_eq acc k v).*2 → v0 ∈ acc.*2 ∨ v0 = v.
Proof.
  induction acc as [|[k' v'] acc IH]; simpl.
  - rewrite list_elem_of_singleton. by right.
  - destruct (py_eq k' k); simpl; rewrite !elem_of_cons.
    + intros [->|Hin]; [by right|left; by right].
    + intros [->|Hin]; [by left; left|].
      destruct (IH Hin) as [?|?]; [left; by right | by right].
Qed.

(** A key that the dict does not hold yet goes to the end. *)
Lemma setitem_fresh acc k v :
  Forall (λ k', py_eq k' k = false) (keys acc) →
  setitem py_eq acc k v = acc ++ [(k, v)].
Proof.
  unfold keys. induction acc as [|[k' v'] acc IH]; simpl; [done|].
  rewrite Forall_cons. intros [-> Hrest]. by rewrite IH.
Qed.

Lemma assign_all_cons acc k v d :
  assign_all acc ((k, v) :: d) = assign_all (setitem py_eq acc k v) d.
Proof. done. Qed.

Lemma keys_assign_all_elem k0 acc d :
  k0 ∈ keys (assign_all acc d) → k0 ∈ keys acc ∨ k0 ∈ keys d.
Proof.
  revert acc. induction d as [|[k v] d IH]; intros acc; [by left|].
  rewrite assign_all_cons. intros Hin.
  destruct (IH _ Hin) as [Hacc|Hd].
  - destruct (keys_setitem_elem _ _ _ _ Hacc) as [?| ->]; [by left|].
    right. unfold keys. simpl. by left.
  - right. unfold keys in *. simpl. by right.
Qed.

Lemma values_assign_all_elem v0 acc d :
  v0 ∈ (assign_all acc d).*2 → v0 ∈ acc.*2 ∨ v0 ∈ d.*2.
Proof.
  revert acc. induction d as [|[k v] d IH]; intros acc; [by left|].
  rewrite assign_all_cons. intros Hin.
  destruct (IH _ Hin) as [Hacc|Hd].
  - destruct (values_setitem_elem _ _ _ _ Hacc) as [?| ->]; [by left|].
    right. simpl. by left.
  - right. simpl. by right.
Qed.

Lemma getitem_setitem acc k v c :
  getitem (setitem py_eq acc k v) c
  = if py_eq k c then Some v else getitem acc c.
Proof.
  induction acc as [|[k' v'] acc IH]; simpl; [done|].
  destruct (py_eq k' k) eqn:Hk; simpl.
  - rewrite (py_eq_congr k' k c Hk). by destruct (py_eq k c).
  - rewrite IH. destruct (py_eq k' c) eqn:Hc, (py_eq k c) eqn:Hkc; try done.
    rewrite (py_eq_congr k' c k Hc), py_eq_sym, Hkc in Hk. done.
Qed.


(** The value found under [c] after a run of assignments is the one of the
    last assignment to a key equal to [c]. *)
Lemma getitem_assign_all acc d c :
  getitem (assign_all acc d) c
  = match last (filter (λ kv, py_eq kv.1 c = true) d) with
    | Some kv => Some kv.2
    | None => getitem acc c
    end.
Proof.
  revert acc. induction d as [|[k v] d IH]; intros acc; [done|].
  rewrite assign_all_cons, IH, getitem_setitem.
  destruct (py_eq k c) eqn:Hk.
  - rewrite filter_cons_True by done. rewrite last_cons.
    by destruct (last _).
  - rewrite filter_cons_False; [done|]. cbn [fst]. by rewrite Hk.
Qed.

Lemma setitem_distinct_keys acc k v :
  distinct_keys acc → distinct_keys (setitem py_eq acc k v).
Proof.
  induction acc as [|[k' v'] acc IH]; simpl; [by split; [constructor|]|].
  intros [Hhead Hrest]. destruct (py_eq k' k) eqn:Hk; simpl; [done|].
  split; [|by apply IH].
  apply Forall_forall. intros k0 Hin.
  apply keys_setitem_elem in Hin as [Hin| ->]; [|done].
  rewrite Forall_forall in Hhead. by apply Hhead.
Qed.

Lemma assign_all_distinct_keys acc d :
  distinct_keys acc → distinct_keys (assign_all acc d).
Proof.
  revert acc. induction d as [|[k v] d IH]; intros acc Hacc; [done|].
  rewrite assign_all_cons. by apply IH, setitem_distinct_keys.
Qed.

Lemma setitem_length acc k v :
  (length acc ≤ length (setitem py_eq acc k v) ≤ S (length acc))%nat
  ∧ setitem py_eq acc k v ≠ [].
Proof.
  induction acc as [|[k' v'] acc IH]; simpl; [by split; [lia|]|].
  destruct (py_eq k' k); simpl; (split; [lia|done]).
Qed.

Lemma assign_all_length acc d :
  (length acc ≤ length (assign_all acc d) ≤ length acc + length d)%nat
  ∧ (d ≠ [] → assign_all acc d ≠ []).
Proof.
  revert acc. induction d as [|[k v] d IH]; intros acc.
  - split; [simpl; lia|done].
  - rewrite assign_all_cons.
    destruct (IH (setitem py_eq acc k v)) as [Hlen Hne].
    destruct (setitem_length acc k v) as [Hset Hset_ne].
    split; [simpl; lia|]. intros _.
    destruct d as [|y d]; [done|]. by apply Hne.
Qed.

Lemma distinct_keys_app_l d1 d2 k :
  distinct_keys (d1 ++ d2) → k ∈ keys d2 →
  Forall (λ k', py_eq k' k = false) (keys d1).
Proof.
  unfold keys. induction d1 as [|[k1 v1] d1 IH]; simpl; [by constructor|].
  intros [Hhead Hrest] Hin. constructor; [|by apply IH].
  rewrite Forall_forall in Hhead. apply Hhead.
  apply list_elem_of_fmap in Hin as (kv & -> & Hin).
  apply list_elem_of_fmap. exists kv. split; [done|].
  apply elem_of_app. by right.
Qed.

(** Without equal keys nothing is merged. *)
Lemma assign_all_distinct pre d :
  distinct_keys (pre ++ d) → assign_all pre d = pre ++ d.
Proof.
  revert pre. induction d as [|[k v] d IH]; intros pre Hd.
  - by rewrite app_nil_r.
  - rewrite assign_all_cons, setitem_fresh.
    + replace (pre ++ (k, v) :: d) with ((pre ++ [(k, v)]) ++ d) in *
        by (by rewrite <- app_assoc).
      by apply IH.
    + apply (distinct_keys_app_l _ _ _ Hd). unfold keys. simpl. by left.
Qed.

Lemma keys_setitem_prefix acc k v :
  keys acc `prefix_of` keys (setitem py_eq acc k v).
Proof.
  unfold keys. induction acc as [|[k' v'] acc IH]; simpl.
  - apply prefix_nil.
  - destruct (py_eq k' k); simpl; [done|]. by apply prefix_cons.
Qed.

Lemma keys_assign_all_prefix acc d :
  keys acc `prefix_of` keys (assign_all acc d).
Proof.
  revert acc. induction d as [|[k v] d IH]; intros acc; [done|].
  rewrite assign_all_cons. etrans; [apply keys_setitem_prefix|apply IH].
Qed.

(** A comprehension computes its keys one by one and assigns the items. *)
Lemma comprehension_from_map_keys {K} (f : K → Outcome PyVal) (acc : dict PyVal V)
    (l : dict K V) :
  comprehension_from f acc l = cd ← map_keys f l; Returns (assign_all acc cd).
Proof.
  revert acc. induction l as [|[x v] l IH]; intros acc; [done|].
  cbn [comprehension_from map_keys]. destruct (f x) as [k'|e]; [|done].
  cbn [mbind Outcome_bind]. rewrite IH.
  by destruct (map_keys f l) as [cd|e].
Qed.

Lemma map_keys_Forall2 {K} (f : K → Outcome PyVal) (l : dict K V) cd :
  map_keys f l = Returns cd
  ↔ Forall2 (λ kv ckv, f kv.1 = Returns ckv.1 ∧ ckv.2 = kv.2) l cd.
Proof.
  revert cd. induction l as [|[x v] l IH]; intros cd; cbn [map_keys].
  - split; [intros [= <-]; constructor|]. intros H. by inversion H.
  - split.
    + destruct (f x) as [k'|e] eqn:Hx; cbn [mbind Outcome_bind]; [|done].
      destruct (map_keys f l) as [rest|e] eqn:Hrest; [|done].
      intros [= <-]. constructor; [done|]. by apply IH.
    + intros H. apply Forall2_cons_inv_l in H as ([k1 v1] & cd' & [Hk Hv] & Hall & ->).
      simpl in Hk, Hv. subst v1. rewrite Hk. cbn [mbind Outcome_bind].
      apply IH in Hall. by rewrite Hall.
Qed.
End dict_facts.

(* ===================================================================== *)
(** ** Facts about key coercion *)
(* ===================================================================== *)

Lemma exceeds_max_str_digits_false (z : Z) :
  exceeds_max_str_digits z = false ↔ (decimal_digits z ≤ default_max_str_digits)%nat.
Proof. unfold exceeds_max_str_digits. apply Nat.ltb_ge. Qed.

Lemma exceeds_max_str_digits_true (z : Z) :
  exceeds_max_str_digits z = true ↔ (default_max_str_digits < decimal_digits z)%nat.
Proof. unfold exceeds_max_str_digits. apply Nat.ltb_lt. Qed.

Lemma exceeds_max_str_digits_opp (z : Z) :
  exceeds_max_str_digits (- z) = exceeds_max_str_digits z.
Proof. unfold exceeds_max_str_digits, decimal_digits. by rewrite Zabs2N.inj_opp. Qed.

(** The decimal form of [10 ^ k] is a one and [k] zeros. *)
Lemma pretty_N_go_pow10_length (k : nat) (s : string) :
  String.length (pretty_N_go (10 ^ N.of_nat k)%N s) = S k + String.length s.
Proof.
  revert s. induction k as [|k IH]; intros s.
  - change (10 ^ N.of_nat 0)%N with 1%N.
    rewrite pretty_N_go_step by done.
    change (1 `div` 10)%N with 0%N. by rewrite pretty_N_go_0.
  - rewrite Nat2N.inj_succ, N.pow_succ_r'.
    assert (0 < 10 ^ N.of_nat k)%N as Hpos
      by (apply N.neq_0_lt_0, N.pow_nonzero; done).
    rewrite pretty_N_go_step by lia.
    rewrite (N.mul_comm 10), N.div_mul by done.
    rewrite IH. simpl. lia.
Qed.

Lemma decimal_digits_pow10 (k : nat) :
  decimal_digits (Z.of_N (10 ^ N.of_nat k)%N) = S k.
Proof.
  unfold decimal_digits. rewrite Zabs2N.id.
  unfold pretty, pretty_N. rewrite decide_False by (apply N.pow_nonzero; done).
  rewrite pretty_N_go_pow10_length. simpl. lia.
Qed.

Lemma exceeds_max_str_digits_long_int :
  exceeds_max_str_digits Samples.long_int = true.
Proof.
  apply exceeds_max_str_digits_true. unfold Samples.long_int.
  change 4300%N with (N.of_nat 4300). rewrite decimal_digits_pow10.
  unfold default_max_str_digits. lia.
Qed.

Lemma key_to_str_long_int :
  key_to_str (PyInt Samples.long_int) = Raises ValueError.
Proof.
  unfold key_to_str, Py.str. cbn [isinstance_Enum].
  by rewrite exceeds_max_str_digits_long_int.
Qed.

Lemma key_to_str_PyStr (s : string) : key_to_str (PyStr s) = Returns (PyStr s).
Proof. done. Qed.

Lemma key_to_str_coercible (k : PyVal) :
  coercible_key k = true → ∃ c, key_to_str k = Returns c.
Proof.
  destruct k as [|[]|z| |]; try (by eexists).
  unfold coercible_key, key_to_str. simpl.
  intros Hz%negb_true_iff. rewrite Hz. by eexists.
Qed.


Lemma key_to_str_acceptable (k : PyVal) :
  acceptable_key k = true → ∃ s, key_to_str k = Returns (PyStr s).
Proof.
  destruct k as [|[]|z| |cls member value]; try (by eexists).
  - unfold acceptable_key, coercible_key, key_to_str. simpl.
    intros Hz%negb_true_iff. rewrite Hz. by eexists.
  - destruct value; try done. by eexists.
Qed.



Section coerce_facts.
Context {V : Type}.
Implicit Types (d cd : dict PyVal V) (k c : PyVal).

Lemma coerce_keys_coercible d :
  coercible d = true → ∃ cd, coerce_keys d = Returns cd.
Proof.
  unfold coercible, coerce_keys, keys.
  induction d as [|[k v] d IH]; [by eexists|].
  rewrite fmap_cons. cbn [forallb map_keys fst].
  intros [Hk Hd]%andb_true_iff.
  destruct (key_to_str_coercible k Hk) as [c ->].
  destruct (IH Hd) as [cd ->]. by eexists.
Qed.


Lemma coerced_keys_sound d cd k' :
  coerce_keys d = Returns cd → k' ∈ keys cd →
  ∃ k, k ∈ keys d ∧ key_to_str k = Returns k'.
Proof.
  unfold coerce_keys, keys. rewrite map_keys_Forall2.
  induction 1 as [|[k v] [c v'] d cd [Hk _] _ IH]; simpl.
  - by intros ?%elem_of_nil.
  - rewrite elem_of_cons. intros [->|Hin].
    + exists k. split; [by left|done].
    + destruct (IH Hin) as (k0 & Hk0 & Hc). exists k0. split; [by right|done].
Qed.


Lemma coerced_values d cd :
  coerce_keys d = Returns cd → cd.*2 = d.*2.
Proof.
  unfold coerce_keys. rewrite map_keys_Forall2.
  induction 1 as [|[k v] [c v'] d cd [_ Hv] _ IH]; [done|].
  rewrite !fmap_cons. simpl in Hv. cbn [snd]. by rewrite Hv, IH.
Qed.

Lemma coerced_length d cd :
  coerce_keys d = Returns cd → length cd = length d.
Proof.
  unfold coerce_keys. rewrite map_keys_Forall2. intros H.
  symmetry. by eapply Forall2_length.
Qed.

(** The last item under a key, before and after the keys are coerced. *)
Lemma coerced_last_filter d cd c :
  coerce_keys d = Returns cd →
  snd <$> last (filter (λ kv, py_eq kv.1 c = true) cd)
  = snd <$> last (filter (λ kv, coerces_to kv.1 c = true) d).
Proof.
  unfold coerce_keys. rewrite map_keys_Forall2.
  induction 1 as [|[k v] [k' v'] d cd [Hk Hv] _ IH]; [done|].
  simpl in Hk, Hv. subst v'.
  assert (Hsame : coerces_to k c = py_eq k' c) by (unfold coerces_to; by rewrite Hk).
  destruct (py_eq k' c) eqn:Hc.
  - rewrite !filter_cons_True by done. rewrite !last_cons.
    destruct (last (filter _ cd)), (last (filter _ d)); simpl in *; congruence.
  - rewrite !filter_cons_False; [done| |]; cbn [fst]; congruence.
Qed.

End coerce_facts.

Lemma record_extra_ODict (d : dict PyVal PyVal) :
  record_extra (ODict d) = cd ← coerce_keys d; Returns (assign_all [] cd).
Proof. unfold record_extra. simpl. apply comprehension_from_map_keys. Qed.

Lemma record_extra_raises_at (before : dict string string) (k v : PyVal)
    (rest : dict PyVal PyVal) (e : PyExc) :
  key_to_str k = Raises e →
  record_extra (ODict (of_str_dict before ++ (k, v) :: rest)) = Raises e.
Proof.
  intros Hk. rewrite record_extra_ODict. unfold coerce_keys, of_str_dict.
  induction before as [|[k0 v0] before IH]; cbn [fmap list_fmap app map_keys].
  - by rewrite Hk.
  - cbn [prod_map fst snd]. rewrite key_to_str_PyStr. cbn [mbind Outcome_bind].
    cbn [mbind Outcome_bind] in IH.
    by destruct (map_keys key_to_str _) as [cd|e'];
      cbn [mbind Outcome_bind] in *; simplify_eq.
Qed.

Lemma record_raises_at self (before : dict string string) (k v : PyVal)
    (rest : dict PyVal PyVal) (e : PyExc) elapsed g :
  key_to_str k = Raises e →
  record self (ODict (of_str_dict before ++ (k, v) :: rest)) elapsed g = Raises e.
Proof.
  intros Hk. unfold record. by rewrite (record_extra_raises_at before k v rest e Hk).
Qed.

Lemma record_extra_coercible (d : dict PyVal PyVal) :
  coercible d = true →
  ∃ cd, coerce_keys d = Returns cd
        ∧ record_extra (ODict d) = Returns (assign_all [] cd).
Proof.
  intros Hd. destruct (coerce_keys_coercible d Hd) as [cd Hcd].
  exists cd. split; [done|]. by rewrite record_extra_ODict, Hcd.
Qed.

Lemma record_extra_Returns (d fwd : dict PyVal PyVal) :
  record_extra (ODict d) = Returns fwd →
  ∃ cd, coerce_keys d = Returns cd ∧ fwd = assign_all [] cd.
Proof.
  rewrite record_extra_ODict. destruct (coerce_keys d) as [cd|e]; [|done].
  intros [= <-]. by exists cd.
Qed.

Lemma coerce_keys_of_str_dict (d : dict string string) :
  coerce_keys (of_str_dict d) = Returns (of_str_dict d).
Proof.
  unfold coerce_keys, of_str_dict. induction d as [|[k v] d IH]; [done|].
  rewrite fmap_cons. cbn [map_keys prod_map fst snd].
  rewrite key_to_str_PyStr. cbn [mbind Outcome_bind]. by rewrite IH.
Qed.

Lemma as_string_map_of_str_dict (d : dict string string) :
  as_string_map (of_str_dict d) = Some d.
Proof.
  unfold of_str_dict. induction d as [|[k v] d IH]; [done|].
  rewrite fmap_cons. cbn [prod_map fst snd as_string_map]. by rewrite IH.
Qed.

Lemma as_string_map_Some (d : dict PyVal PyVal) (m : dict string string) :
  as_string_map d = Some m → d = of_str_dict m.
Proof.
  revert m. induction d as [|[k v] d IH]; intros m; simpl.
  - by intros [= <-].
  - destruct k; try done. destruct v; try done.
    destruct (as_string_map d) as [m'|]; simpl; [|done].
    intros [= <-]. simpl. by rewrite (IH m').
Qed.

Lemma as_string_map_is_Some (d : dict PyVal PyVal) :
  is_Some (as_string_map d)
  ↔ Forall (λ k, isinstance_str k = true) (keys d)
    ∧ Forall (λ v, isinstance_str v = true) d.*2.
Proof.
  unfold keys. induction d as [|[k v] d IH].
  - split; [by split; constructor | by eexists].
  - rewrite !fmap_cons, !Forall_cons. cbn [fst snd as_string_map].
    destruct k; try (split; [by intros [? [=]] | by intros [[[=] _] _]]).
    destruct v; try (split; [by intros [? [=]] | by intros [_ [[=] _]]]).
    rewrite fmap_is_Some, IH. simpl. tauto.
Qed.

Lemma lower_of_str_dict (d : dict string string) :
  lower (of_str_dict d) = Returns d.
Proof. unfold lower. by rewrite as_string_map_of_str_dict. Qed.

Lemma lower_Returns (fwd : dict PyVal PyVal) (extras : dict string string) :
  lower fwd = Returns extras ↔ as_string_map fwd = Some extras.
Proof.
  unfold lower. destruct (as_string_map fwd); split; intros [=]; by subst.
Qed.

Lemma distinct_keys_of_str_dict (m : dict string string) :
  distinct_keys (of_str_dict m) ↔ NoDup (keys m).
Proof.
  unfold of_str_dict. induction m as [|[k v] m IH].
  - split; [constructor|done].
  - rewrite fmap_cons. cbn [prod_map fst snd distinct_keys].
    unfold keys in *. rewrite fmap_cons, NoDup_cons, <- IH. cbn [fst].
    assert (Forall (λ k', py_eq (PyStr k) k' = false) (prod_map PyStr PyStr <$> m).*1
            ↔ k ∉ m.*1) as ->; [|done].
    rewrite !Forall_fmap, Forall_forall. split.
    + intros Hall Hin. apply list_elem_of_fmap in Hin as ([k' v'] & Hk & Hin).
      simpl in Hk. subst k'. specialize (Hall _ Hin). simpl in Hall.
      by rewrite bool_decide_eq_true_2 in Hall.
    + intros Hnin [k' v'] Hin. simpl. apply bool_decide_eq_false. intros ->.
      apply Hnin. apply list_elem_of_fmap. by exists (k', v').
Qed.

(** A dict from [str] to [str] is handed over as it is. *)
Lemma record_extra_str_dict (d : dict string string) :
  NoDup (keys d) →
  record_extra (ODict (of_str_dict d)) = Returns (of_str_dict d).
Proof.
  intros Hnd. rewrite record_extra_ODict, coerce_keys_of_str_dict.
  cbn [mbind Outcome_bind]. f_equal.
  apply (assign_all_distinct []). by apply distinct_keys_of_str_dict.
Qed.

(* ===================================================================== *)
(** ** Facts about the native metric *)
(* ===================================================================== *)

Section core_facts.
Implicit Types (g : Glean) (p q : string) (e : ErrorType)
  (faults : list ErrorType) (ev : RecordedEvent).

Lemma get_num_record_error e p q e' g :
  get_num_recorded_errors e p (record_error q e' g)
  = get_num_recorded_errors e p g + (if decide ((q, e') = (p, e)) then 1 else 0).
Proof.
  unfold get_num_recorded_errors at 1. unfold record_error, with_errors. simpl.
  rewrite lookup_insert. destruct (decide ((q, e') = (p, e))) as [[= -> ->]|]; simpl.
  - lia.
  - unfold get_num_recorded_errors. lia.
Qed.

Lemma foldl_record_error_peek q faults g p :
  peek p (foldl (λ g' e, record_error q e g') g faults) = peek p g
  ∧ max_events (foldl (λ g' e, record_error q e g') g faults) = max_events g
  ∧ clock (foldl (λ g' e, record_error q e g') g faults) = clock g.
Proof.
  revert g. induction faults as [|e faults IH]; intros g; simpl; [done|].
  destruct (IH (record_error q e g)) as (-> & -> & ->). done.
Qed.

Lemma foldl_record_error_num q faults g e p :
  get_num_recorded_errors e p (foldl (λ g' e', record_error q e' g') g faults)
  = get_num_recorded_errors e p g
    + (if decide (p = q) then count_faults e faults else 0).
Proof.
  revert g. induction faults as [|e' faults IH]; intros g; simpl.
  - unfold count_faults. simpl. destruct (decide (p = q)); lia.
  - rewrite IH, get_num_record_error. unfold count_faults.
    rewrite filter_cons.
    destruct (decide (p = q)) as [->|Hpq].
    + destruct (decide (e' = e)) as [->|Hne].
      * rewrite decide_True by done. simpl. lia.
      * rewrite decide_False by congruence. lia.
    + rewrite decide_False by congruence. lia.
Qed.

Lemma has_room_frame p g g' :
  peek p g' = peek p g → max_events g' = max_events g →
  has_room p g' ↔ has_room p g.
Proof. unfold has_room. by intros -> ->. Qed.

(** One ping's share of a [record]: the sequence of the ping. *)
Lemma record_in_ping_peek ev faults q g p :
  peek p (record_in_ping ev faults q g)
  = if decide (p = q ∧ has_room p g) then peek p g ++ [ev] else peek p g.
Proof.
  unfold record_in_ping, append.
  destruct (foldl_record_error_peek q faults g q) as (Hpk & Hmx & _).
  destruct (foldl_record_error_peek q faults g p) as (Hpk' & _ & _).
  rewrite (decide_ext _ (has_room q g)) by (by apply has_room_frame).
  destruct (decide (has_room q g)) as [Hroom|Hroom].
  - unfold peek at 1. unfold with_events. simpl. rewrite lookup_insert.
    destruct (decide (q = p)) as [->|Hne]; simpl.
    + by rewrite Hpk, decide_True.
    + rewrite decide_False by (intros [-> _]; done). apply Hpk'.
  - change (peek p (record_error q InvalidOverflow ?g0)) with (peek p g0).
    rewrite Hpk'. destruct (decide (p = q ∧ has_room p g)) as [[-> ?]|]; done.
Qed.

(** One ping's share of a [record]: the counters of the ping. *)
Lemma record_in_ping_num ev faults q g e p :
  get_num_recorded_errors e p (record_in_ping ev faults q g)
  = get_num_recorded_errors e p g
    + (if decide (p = q) then count_faults e faults + overflow_count e p g else 0).
Proof.
  unfold record_in_ping, append, overflow_count.
  destruct (foldl_record_error_peek q faults g q) as (Hpk & Hmx & _).
  rewrite (decide_ext _ (has_room q g)) by (by apply has_room_frame).
  destruct (decide (has_room q g)) as [Hroom|Hroom].
  - change (get_num_recorded_errors e p (with_events ?f ?g0))
      with (get_num_recorded_errors e p g0).
    rewrite foldl_record_error_num.
    destruct (decide (p = q)) as [->|]; [|done].
    rewrite decide_True by done. lia.
  - rewrite get_num_record_error, foldl_record_error_num.
    destruct (decide (p = q)) as [->|Hne].
    + rewrite (decide_False (P := has_room q g)) by done.
      destruct (decide (e = InvalidOverflow)) as [->|Hne].
      * rewrite decide_True by done. lia.
      * rewrite decide_False by congruence. lia.
    + rewrite decide_False by congruence. lia.
Qed.

Lemma record_in_ping_config ev faults q g :
  max_events (record_in_ping ev faults q g) = max_events g
  ∧ clock (record_in_ping ev faults q g) = clock g.
Proof.
  unfold record_in_ping, append.
  destruct (foldl_record_error_peek q faults g q) as (_ & Hmx & Hck).
  destruct (decide _); simpl; by rewrite Hmx, Hck.
Qed.

(** All pings of a [record]: each ping of the list gets its own share and
    no other ping is touched. *)
Lemma foldl_record_in_ping ev faults (pings : list string) g :
  NoDup pings →
  (∀ p, peek p (foldl (λ g' q, record_in_ping ev faults q g') g pings)
        = if decide (p ∈ pings ∧ has_room p g) then peek p g ++ [ev] else peek p g)
  ∧ (∀ e p, get_num_recorded_errors e p
              (foldl (λ g' q, record_in_ping ev faults q g') g pings)
            = get_num_recorded_errors e p g
              + (if decide (p ∈ pings)
                 then count_faults e faults + overflow_count e p g else 0))
  ∧ max_events (foldl (λ g' q, record_in_ping ev faults q g') g pings) = max_events g
  ∧ clock (foldl (λ g' q, record_in_ping ev faults q g') g pings) = clock g.
Proof.
  intros Hnd. revert g.
  induction Hnd as [|q pings Hq Hnd IH]; intros g; cbn [foldl].
  - split; [|split; [|done]].
    + intros p. rewrite decide_False; [done|]. intros [Hin _]. by apply elem_of_nil in Hin.
    + intros e p. rewrite decide_False; [lia|]. apply not_elem_of_nil.
  - destruct (IH (record_in_ping ev faults q g)) as (Hpk & Hnum & Hmx & Hck).
    destruct (record_in_ping_config ev faults q g) as (Hmx1 & Hck1).
    split_and!.
    + intros p. rewrite Hpk, record_in_ping_peek.
      destruct (decide (p = q)) as [->|Hne].
      * rewrite (decide_False (P := q ∈ pings ∧ _)) by (intros [? _]; done).
        apply decide_ext. rewrite elem_of_cons. tauto.
      * rewrite (decide_False (P := p = q ∧ _)) by (intros [? _]; done).
        apply decide_ext.
        rewrite elem_of_cons, (has_room_frame p g (record_in_ping ev faults q g));
          [tauto| |done].
        rewrite record_in_ping_peek. rewrite decide_False; [done|]. tauto.
    + intros e p. rewrite Hnum, record_in_ping_num.
      destruct (decide (p = q)) as [->|Hne].
      * rewrite (decide_False (P := q ∈ pings)) by done.
        rewrite decide_True by (by left). lia.
      * assert (overflow_count e p (record_in_ping ev faults q g)
                = overflow_count e p g) as ->.
        { unfold overflow_count. apply decide_ext, has_room_frame; [|done].
          rewrite record_in_ping_peek. rewrite decide_False; [done|]. tauto. }
        destruct (decide (p ∈ pings)) as [Hin|Hnin].
        -- rewrite decide_True by (by right). lia.
        -- rewrite decide_False; [lia|]. rewrite elem_of_cons. tauto.
    + by rewrite Hmx.
    + by rewrite Hck.
Qed.
End core_facts.

(** What an enabled native [record] does to every ping and counter. *)
Lemma core_record_enabled (m : EventMetric) (extras : dict string string)
    (elapsed : N) (g : Glean) :
  disabled (meta m) = false →
  (∀ p, peek p (Core.record m extras elapsed g)
        = if decide (p ∈ send_in_pings (meta m) ∧ has_room p g)
          then peek p g ++ [new_event m extras elapsed g] else peek p g)
  ∧ (∀ e p, get_num_recorded_errors e p (Core.record m extras elapsed g)
            = get_num_recorded_errors e p g
              + (if decide (p ∈ send_in_pings (meta m))
                 then count_faults e (validate_extras (allowed_extra_keys m) extras).2
                      + overflow_count e p g
                 else 0))
  ∧ max_events (Core.record m extras elapsed g) = max_events g
  ∧ clock (Core.record m extras elapsed g) = (clock g + elapsed)%N.
Proof.
  intros Hen. unfold Core.record. rewrite Hen.
  pose proof (foldl_record_in_ping (new_event m extras elapsed g)
    (validate_extras (allowed_extra_keys m) extras).2
    (remove_dups (send_in_pings (meta m)))
    (with_clock (clock g + elapsed) g)
    (NoDup_remove_dups _)) as (Hpk & Hnum & Hmx & Hck).
  split_and!.
  - intros p. unfold new_event in Hpk. rewrite Hpk.
    apply decide_ext. by rewrite elem_of_remove_dups.
  - intros e p. unfold new_event in Hnum. rewrite Hnum.
    change (get_num_recorded_errors e p (with_clock ?n g))
      with (get_num_recorded_errors e p g).
    change (overflow_count e p (with_clock ?n g)) with (overflow_count e p g).
    f_equal. apply decide_ext. by rewrite elem_of_remove_dups.
  - unfold new_event in Hmx. by rewrite Hmx.
  - unfold new_event in Hck. by rewrite Hck.
Qed.

Lemma core_record_disabled (m : EventMetric) (extras : dict string string)
    (elapsed : N) (g : Glean) :
  disabled (meta m) = true → Core.record m extras elapsed g = g.
Proof. intros Hdis. unfold Core.record. by rewrite Hdis. Qed.

(** *** The validator *)

Section validator_facts.
Variable allowed : list string.
Implicit Types (extras : dict string string) (k v : string).

Lemma validated_elem extras k v :
  (k, v) ∈ (validate_extras allowed extras).1 →
  k ∈ allowed ∧ ∃ v0, (k, v0) ∈ extras
    ∧ v = (if bool_decide (MAX_LENGTH_EXTRA_VALUE < String.length v0)
           then truncate MAX_LENGTH_EXTRA_VALUE v0 else v0).
Proof.
  unfold validate_extras. simpl. rewrite list_elem_of_omap.
  intros ([k0 v0] & Hin & Hv). unfold validate_pair in Hv. simpl in Hv.
  destruct (bool_decide (k0 ∈ allowed)) eqn:Hk; [|done].
  apply bool_decide_eq_true in Hk.
  destruct (bool_decide (MAX_LENGTH_EXTRA_VALUE < String.length v0)) eqn:Hlen;
    simpl in Hv; injection Hv as <- <-; (split; [done|]); exists v0;
    by rewrite Hlen.
Qed.

(** A pair with an invalid key is dropped. *)
Lemma validated_keys_allowed extras k :
  k ∈ keys (validate_extras allowed extras).1 → k ∈ allowed.
Proof.
  unfold keys. rewrite list_elem_of_fmap. intros ([k' v] & -> & Hin).
  by apply validated_elem in Hin as [? _].
Qed.

(** A pair with an allowed key is kept, its value cut to the maximum. *)
Lemma validated_keeps extras k v :
  (k, v) ∈ extras → k ∈ allowed →
  (k, if bool_decide (MAX_LENGTH_EXTRA_VALUE < String.length v)
      then truncate MAX_LENGTH_EXTRA_VALUE v else v)
    ∈ (validate_extras allowed extras).1.
Proof.
  intros Hin Hk. unfold validate_extras. simpl. rewrite list_elem_of_omap.
  exists (k, v). split; [done|]. unfold validate_pair. simpl.
  rewrite bool_decide_eq_true_2 by done. by destruct (bool_decide _).
Qed.

Lemma count_faults_app e (l1 l2 : list ErrorType) :
  count_faults e (l1 ++ l2) = count_faults e l1 + count_faults e l2.
Proof. unfold count_faults. by rewrite filter_app, length_app. Qed.

(** One [InvalidExtraKey] fault per pair whose key is not allowed. *)
Lemma faults_invalid_extra_key extras :
  count_faults InvalidExtraKey (validate_extras allowed extras).2
  = length (filter (λ k, k ∉ allowed) (keys extras)).
Proof.
  unfold validate_extras, keys. simpl.
  induction extras as [|[k v] extras IH]; [done|].
  rewrite bind_cons, count_faults_app, IH, fmap_cons, filter_cons. simpl.
  unfold validate_pair. simpl.
  destruct (decide (k ∉ allowed)) as [Hk|Hk].
  - rewrite bool_decide_eq_false_2 by done. done.
  - apply dec_stable in Hk. rewrite bool_decide_eq_true_2 by done.
    by destruct (bool_decide _).
Qed.

(** One [InvalidOverflow] fault per kept pair whose value is too long. *)
Lemma faults_invalid_overflow extras :
  count_faults InvalidOverflow (validate_extras allowed extras).2
  = length (filter (λ kv, kv.1 ∈ allowed
                          ∧ MAX_LENGTH_EXTRA_VALUE < String.length kv.2) extras).
Proof.
  unfold validate_extras. cbn [snd].
  induction extras as [|[k v] extras IH]; [done|].
  rewrite bind_cons, count_faults_app, IH. unfold validate_pair. cbn [fst snd].
  destruct (decide (k ∈ allowed)) as [Hk|Hk].
  - rewrite (bool_decide_eq_true_2 (k ∈ allowed)) by done.
    destruct (decide (MAX_LENGTH_EXTRA_VALUE < String.length v)) as [Hlen|Hlen].
    + rewrite bool_decide_eq_true_2 by done. by rewrite filter_cons_True.
    + rewrite bool_decide_eq_false_2 by done.
      rewrite filter_cons_False; [done|]. simpl. tauto.
  - rewrite (bool_decide_eq_false_2 (k ∈ allowed)) by done.
    rewrite filter_cons_False; [done|]. simpl. tauto.
Qed.

(** The validator never reports [InvalidValue]. *)
Lemma faults_invalid_value extras :
  count_faults InvalidValue (validate_extras allowed extras).2 = 0.
Proof.
  unfold validate_extras. cbn [snd].
  induction extras as [|[k v] extras IH]; [done|].
  rewrite bind_cons, count_faults_app, IH. unfold validate_pair. simpl.
  by repeat destruct (bool_decide _).
Qed.
End validator_facts.

Lemma truncate_length (n : nat) (s : string) :
  String.length (truncate n s) = n `min` String.length s.
Proof.
  revert s. induction n as [|n IH]; intros [|c s]; simpl; try done.
  by rewrite IH.
Qed.

Lemma truncate_prefix (n : nat) (s : string) :
  ∃ rest, s = truncate n s +:+ rest.
Proof.
  revert s. induction n as [|n IH]; intros [|c s]; simpl.
  - by exists "".
  - by exists (String c s).
  - by exists "".
  - destruct (IH s) as [rest Hrest]. exists rest.
    change (String c s = String c (truncate n s +:+ rest)). by f_equal.
Qed.

(* ===================================================================== *)
(** ** Facts about the binding *)
(* ===================================================================== *)

Section binding_facts.
Implicit Types (self : EventMetricType) (g : Glean) (extra : PyObj)
  (ping_name : option string) (p : string) (recording : RecordedEvent).

Lemma translate_no_extras_extra recording :
  extra (translate_no_extras recording) ≠ None.
Proof.
  unfold translate_no_extras. destruct (Core.extra recording) eqn:Hx; simpl; [|done].
  by rewrite Hx.
Qed.

Lemma translate_no_extras_id recording :
  extra recording ≠ None → translate_no_extras recording = recording.
Proof. unfold translate_no_extras. by destruct (Core.extra recording). Qed.


(** The wrapper returns the native result with the loop applied to every
    event; [None] and the empty list pass through. *)
Lemma test_get_value_fmap self ping_name g :
  (test_get_value self ping_name g).1
  = fmap (M := list) translate_no_extras
      <$> (Core.test_get_value (_inner self) ping_name g).1.
Proof.
  unfold test_get_value.
  destruct (Core.test_get_value _ _ _) as [[[|r l]|] g']; done.
Qed.


Lemma core_test_get_value self ping_name p g :
  resolve_ping (_inner self) ping_name = Some p →
  (Core.test_get_value (_inner self) ping_name g).1
  = match peek p g with [] => None | recordings => Some recordings end.
Proof. intros Hp. unfold Core.test_get_value. simpl. by rewrite Hp. Qed.

Lemma test_get_value_stored self ping_name p g r l :
  resolve_ping (_inner self) ping_name = Some p →
  peek p g = l ++ [r] →
  (test_get_value self ping_name g).1
  = Some ((translate_no_extras <$> l) ++ [translate_no_extras r]).
Proof.
  intros Hp Hpk. rewrite test_get_value_fmap, (core_test_get_value _ _ p) by done.
  rewrite Hpk. destruct l; simpl; [done|]. by rewrite fmap_app.
Qed.

Lemma test_get_value_nothing_recorded self ping_name g :
  nothing_recorded self ping_name g → (test_get_value self ping_name g).1 = None.
Proof.
  intros Hnone. rewrite test_get_value_fmap. unfold Core.test_get_value. simpl.
  destruct (resolve_ping _ _) as [p|] eqn:Hp; simpl; [|done].
  by rewrite (Hnone p Hp).
Qed.

Lemma test_get_value_extras self ping_name g recordings :
  (test_get_value self ping_name g).1 = Some recordings →
  Forall (λ r, extra r ≠ None) recordings.
Proof.
  rewrite test_get_value_fmap.
  destruct (Core.test_get_value _ _ _).1 as [l|]; simpl; [|done].
  intros [= <-]. apply Forall_fmap, Forall_forall. intros r _.
  apply translate_no_extras_extra.
Qed.

Lemma record_defined self extra fwd extras elapsed g :
  record_extra extra = Returns fwd →
  as_string_map fwd = Some extras →
  record self extra elapsed g = Returns (Core.record (_inner self) extras elapsed g).
Proof.
  intros Hfwd Hx. unfold record. rewrite Hfwd. cbn [mbind Outcome_bind].
  unfold lower. by rewrite Hx.
Qed.

Lemma record_str_dict self (d : dict string string) elapsed g :
  NoDup (keys d) →
  record self (ODict (of_str_dict d)) elapsed g
  = Returns (Core.record (_inner self) d elapsed g).
Proof.
  intros Hnd. eapply record_defined; [by apply record_extra_str_dict|].
  apply as_string_map_of_str_dict.
Qed.

Lemma ffi_accepts_inv extra :
  ffi_accepts extra ↔
  ∃ fwd extras, record_extra extra = Returns fwd ∧ as_string_map fwd = Some extras.
Proof.
  unfold ffi_accepts. split.
  - intros [extras Hx]. destruct (record_extra extra) as [fwd|e]; [|done].
    exists fwd, extras. split; [done|]. by apply lower_Returns.
  - intros (fwd & extras & -> & Hx). exists extras. by apply lower_Returns.
Qed.



Lemma record_extra_dict_sound (d fwd : dict PyVal PyVal) (k' : PyVal) :
  record_extra (ODict d) = Returns fwd →
  k' ∈ keys fwd →
  ∃ k, k ∈ keys d ∧ key_to_str k = Returns k'.
Proof.
  intros (cd & Hcd & ->)%record_extra_Returns Hin.
  apply keys_assign_all_elem in Hin as [Hin|Hin]; [by apply elem_of_nil in Hin|].
  by eapply coerced_keys_sound.
Qed.

Lemma record_extra_dict_values (d fwd : dict PyVal PyVal) (v : PyVal) :
  record_extra (ODict d) = Returns fwd → v ∈ fwd.*2 → v ∈ d.*2.
Proof.
  intros (cd & Hcd & ->)%record_extra_Returns Hin.
  apply values_assign_all_elem in Hin as [Hin|Hin]; [by apply elem_of_nil in Hin|].
  by rewrite <- (coerced_values d cd Hcd).
Qed.

Lemma record_extra_dict_distinct (d fwd : dict PyVal PyVal) :
  record_extra (ODict d) = Returns fwd → distinct_keys fwd.
Proof.
  intros (cd & Hcd & ->)%record_extra_Returns. by apply assign_all_distinct_keys.
Qed.

Lemma record_extra_dict_getitem (d fwd : dict PyVal PyVal) (c : PyVal) :
  record_extra (ODict d) = Returns fwd →
  getitem fwd c = snd <$> last (filter (λ kv, coerces_to kv.1 c = true) d).
Proof.
  intros (cd & Hcd & ->)%record_extra_Returns.
  rewrite getitem_assign_all, <- (coerced_last_filter d cd c Hcd).
  by destruct (last _).
Qed.

Lemma acceptable_coercible (d : dict PyVal PyVal) :
  acceptable (ODict d) = true → coercible d = true.
Proof.
  unfold acceptable, coercible, keys. induction d as [|[k v] d IH]; [done|].
  rewrite fmap_cons. cbn [forallb fst snd].
  intros [[Hk _]%andb_true_iff Hd]%andb_true_iff.
  rewrite IH, andb_true_r by done. by destruct k.
Qed.

(** An acceptable argument goes through lines 61-73 and is a mapping of
    strings. *)
Lemma acceptable_handed_over extra :
  acceptable extra = true →
  ∃ fwd extras, record_extra extra = Returns fwd ∧ as_string_map fwd = Some extras.
Proof.
  destruct extra as [v|d|d]; intros Hacc.
  - by exists [], [].
  - destruct (record_extra_coercible d (acceptable_coercible d Hacc)) as (cd & Hcd & Hfwd).
    assert (Hall : Forall (λ kv, acceptable_key kv.1 = true ∧ isinstance_str kv.2 = true) d).
    { unfold acceptable in Hacc. rewrite forallb_forall in Hacc.
      apply Forall_forall. intros kv Hin. apply andb_true_iff, Hacc.
      by apply list_elem_of_In. }
    rewrite Forall_forall in Hall.
    assert (Hsome : is_Some (as_string_map (assign_all [] cd))).
    { apply as_string_map_is_Some. split; apply Forall_forall.
      - intros k' Hin.
        destruct (record_extra_dict_sound d _ k' Hfwd Hin) as (k & Hk & Hc).
        unfold keys in Hk. apply list_elem_of_fmap in Hk as (kv & -> & Hkv).
        destruct (Hall kv Hkv) as [Hkey _].
        destruct (key_to_str_acceptable _ Hkey) as [s Hs].
        rewrite Hs in Hc. by injection Hc as <-.
      - intros v Hin. apply (record_extra_dict_values d _ v Hfwd) in Hin.
        apply list_elem_of_fmap in Hin as (kv & -> & Hkv).
        by destruct (Hall kv Hkv). }
    destruct Hsome as [extras Hextras]. by exists (assign_all [] cd), extras.
  - exists (of_str_dict d), d. split; [done|]. apply as_string_map_of_str_dict.
Qed.

(** Reading back after an enabled [record] with room in the store. *)
Lemma test_get_value_recorded self ping_name p extras elapsed g :
  disabled (meta (_inner self)) = false →
  target_ping self ping_name p →
  has_room p g →
  (test_get_value self ping_name (Core.record (_inner self) extras elapsed g)).1
  = Some ((translate_no_extras <$> peek p g)
          ++ [new_event (_inner self) extras elapsed g]).
Proof.
  intros Hen [Hp Hin] Hroom.
  destruct (core_record_enabled (_inner self) extras elapsed g Hen) as (Hpk & _).
  rewrite (test_get_value_stored self ping_name p _
             (new_event (_inner self) extras elapsed g) (peek p g)); try done.
  rewrite Hpk. by rewrite decide_True.
Qed.

Lemma test_get_num_recorded_errors_resolved self e ping_name p g :
  resolve_ping (_inner self) ping_name = Some p →
  test_get_num_recorded_errors self e ping_name g = get_num_recorded_errors e p g.
Proof.
  intros Hp. unfold test_get_num_recorded_errors, Core.test_get_num_recorded_errors.
  by rewrite Hp.
Qed.

(** The counters after a [record], for a metric enabled or not. *)
Lemma record_counters self extras elapsed g e p :
  get_num_recorded_errors e p (Core.record (_inner self) extras elapsed g)
  = get_num_recorded_errors e p g
    + (if decide (counts_for self p)
       then count_faults e (validate_extras (allowed_extra_keys (_inner self)) extras).2
            + overflow_count e p g
       else 0).
Proof.
  destruct (decide (disabled (meta (_inner self)) = false)) as [Hen|Hdis].
  - destruct (core_record_enabled (_inner self) extras elapsed g Hen) as (_ & Hnum & _).
    rewrite Hnum. f_equal. apply decide_ext. unfold counts_for. tauto.
  - rewrite core_record_disabled by (by destruct (disabled _)).
    rewrite decide_False; [lia|]. by intros [? _].
Qed.
End binding_facts.

(* ===================================================================== *)
(** ** Recording and exceptions *)
(* ===================================================================== *)

(** C1.  The claim as stated fails: for a dict with an integer key of 4301
    digits, [str(key)] in [key_to_str] raises [ValueError]; nothing in
    [record] catches it, so the caller gets the exception. *)
Lemma record_raises_on_long_int_key :
  record Samples.click (ODict [(PyInt Samples.long_int, PyStr "x")]) 0 Samples.fresh
  = Raises ValueError.
Proof. apply (record_raises_at _ []), key_to_str_long_int. Qed.

(** C1, amended.  For every argument that is not a dict, and for every dict
    whose values are strings and whose keys are strings, enum members
    declaring a string, or other keys that [str] converts, [record] returns
    to its caller with a new storage state.  The mapping the native method
    gets is the one the argument determines (empty for an object that is
    neither a dict nor an [EventExtras], the [to_ffi_extra()] dict of an
    [EventExtras], and for a dict the last value under each coerced key),
    and every fault found on the way (the validator's faults and a full
    store) shows only as an increment of the counter that
    [test_get_num_recorded_errors] reads. *)
Theorem record_returns_and_counts_faults
    (self : EventMetricType) (extra : PyObj) (elapsed : N) (g : Glean) :
  acceptable extra = true →
  ∃ g' handed_over extras,
    record_extra extra = Returns handed_over
    ∧ as_string_map handed_over = Some extras
    ∧ record self extra elapsed g = Returns g'
    ∧ match extra with
      | OVal _ => extras = []
      | OExtras d => extras = d
      | ODict d =>
          ∀ c, getitem handed_over c
               = snd <$> last (filter (λ kv, coerces_to kv.1 c = true) d)
      end
    ∧ ∀ error_type ping_name p,
        resolve_ping (_inner self) ping_name = Some p →
        test_get_num_recorded_errors self error_type ping_name g'
        = test_get_num_recorded_errors self error_type ping_name g
          + (if decide (counts_for self p)
             then count_faults error_type
                    (validate_extras (allowed_extra_keys (_inner self)) extras).2
                  + overflow_count error_type p g
             else 0).
Proof.
  intros Hacc.
  destruct (acceptable_handed_over extra Hacc) as (fwd & extras & Hfwd & Hx).
  exists (Core.record (_inner self) extras elapsed g), fwd, extras.
  split_and!; [done|done|by eapply record_defined| |].
  - destruct extra as [v|d|d].
    + injection Hfwd as <-. by injection Hx as <-.
    + intros c. by apply record_extra_dict_getitem.
    + injection Hfwd as <-. rewrite as_string_map_of_str_dict in Hx.
      by injection Hx as <-.
  - intros e ping_name p Hp.
    rewrite !(test_get_num_recorded_errors_resolved _ _ _ p) by done.
    apply record_counters.
Qed.

Lemma record_returns_and_counts_faults_witness :
  ∃ g' handed_over extras,
    record_extra (ODict [(PyStr "reason", PyStr (Samples.xs 150)); (PyInt 7, PyStr "y")])
    = Returns handed_over
    ∧ as_string_map handed_over = Some extras
    ∧ record Samples.click
        (ODict [(PyStr "reason", PyStr (Samples.xs 150)); (PyInt 7, PyStr "y")])
        3 Samples.fresh
      = Returns g'
    ∧ (∀ c, getitem handed_over c
            = snd <$> last (filter (λ kv, coerces_to kv.1 c = true)
                              [(PyStr "reason", PyStr (Samples.xs 150));
                               (PyInt 7, PyStr "y")]))
    ∧ ∀ error_type ping_name p,
        resolve_ping (_inner Samples.click) ping_name = Some p →
        test_get_num_recorded_errors Samples.click error_type ping_name g'
        = test_get_num_recorded_errors Samples.click error_type ping_name Samples.fresh
          + (if decide (counts_for Samples.click p)
             then count_faults error_type
                    (validate_extras (allowed_extra_keys (_inner Samples.click)) extras).2
                  + overflow_count error_type p Samples.fresh
             else 0).
Proof.
  apply (record_returns_and_counts_faults Samples.click
           (ODict [(PyStr "reason", PyStr (Samples.xs 150)); (PyInt 7, PyStr "y")])
           3 Samples.fresh).
  vm_compute. reflexivity.
Defined.

(* ===================================================================== *)
(** ** Absent extras *)
(* ===================================================================== *)

(** C2.  On an enabled metric with room in the store, [record(None)]
    followed by [test_get_value()] returns the events read before plus one
    new event whose [extra] is the empty dict, and no event of the returned
    list has [extra] equal to [None]. *)
Theorem record_None_extra_is_empty
    (self : EventMetricType) (ping_name : option string) (p : string)
    (elapsed : N) (g : Glean) :
  disabled (meta (_inner self)) = false →
  target_ping self ping_name p →
  has_room p g →
  ∃ g' ev,
    record self (OVal PyNone) elapsed g = Returns g'
    ∧ (test_get_value self ping_name g').1
      = Some ((translate_no_extras <$> peek p g) ++ [ev])
    ∧ extra ev = Some []
    ∧ Forall (λ r, extra r ≠ None) ((translate_no_extras <$> peek p g) ++ [ev]).
Proof.
  intros Hen Htarget Hroom.
  exists (Core.record (_inner self) [] elapsed g), (new_event (_inner self) [] elapsed g).
  assert (Hread := test_get_value_recorded self ping_name p [] elapsed g Hen Htarget Hroom).
  split_and!; try done.
  by apply (test_get_value_extras self ping_name _ _ Hread).
Qed.

Lemma record_None_extra_is_empty_witness :
  ∃ g' ev,
    record Samples.click (OVal PyNone) 5 Samples.fresh = Returns g'
    ∧ (test_get_value Samples.click None g').1
      = Some ((translate_no_extras <$> peek "events" Samples.fresh) ++ [ev])
    ∧ extra ev = Some []
    ∧ Forall (λ r, extra r ≠ None)
        ((translate_no_extras <$> peek "events" Samples.fresh) ++ [ev]).
Proof.
  apply (record_None_extra_is_empty Samples.click None "events" 5 Samples.fresh).
  - reflexivity.
  - split; [reflexivity | vm_compute; by left].
  - vm_compute. lia.
Defined.

(* ===================================================================== *)
(** ** Key coercion *)
(* ===================================================================== *)




(** The two keys [7] and ["7"] of the witness meet in one key of the dict
    handed over; the later value wins. *)
Example comprehension_merges_keys :
  record_extra (ODict [(PyEnum "ClickKeys" "REASON" (PyStr "reason"), PyStr "a");
                       (PyInt 7, PyStr "b"); (PyStr "7", PyStr "c")])
  = Returns [(PyStr "reason", PyStr "a"); (PyStr "7", PyStr "c")].
Proof. vm_compute. reflexivity. Qed.

(* ===================================================================== *)
(** ** Reading back *)
(* ===================================================================== *)

(** C4.  [test_get_value(ping_name)] returns [None] when nothing has been
    recorded for the ping, and in every list it returns, whatever the
    storage holds, each event has an [extra] that is not [None]. *)
Theorem test_get_value_absent_or_with_extras
    (self : EventMetricType) (ping_name : option string) (g : Glean) :
  (nothing_recorded self ping_name g → (test_get_value self ping_name g).1 = None)
  ∧ (∀ recordings, (test_get_value self ping_name g).1 = Some recordings →
       recordings ≠ [] ∧ Forall (λ r, extra r ≠ None) recordings).
Proof.
  split.
  - apply test_get_value_nothing_recorded.
  - intros recordings Hrec. split; [|by eapply test_get_value_extras].
    rewrite test_get_value_fmap in Hrec. unfold Core.test_get_value in Hrec.
    simpl in Hrec.
    destruct (resolve_ping _ _) as [p|]; simpl in Hrec; [|done].
    destruct (peek p g); simpl in Hrec; [done|]. by injection Hrec as <-.
Qed.

Lemma test_get_value_absent_or_with_extras_witness :
  (test_get_value Samples.click None Samples.fresh).1 = None
  ∧ Forall (λ r, extra r ≠ None)
      [ {| timestamp := 1; category := "ui"; name := "click"; extra := Some [] |} ].
Proof.
  split.
  - apply (test_get_value_absent_or_with_extras Samples.click None Samples.fresh).
    intros p [= <-]. reflexivity.
  - apply (test_get_value_absent_or_with_extras Samples.click None Samples.without_extras).
    vm_compute. reflexivity.
Defined.

(* ===================================================================== *)
(** ** Invalid keys and long values *)
(* ===================================================================== *)

(** C5.  On an enabled metric, for every extras dict [d] passed to
    [record], [test_get_num_recorded_errors(InvalidExtraKey)] grows by
    exactly the number of keys of [d] that are not allowed, the event built
    carries no pair with such a key (and keeps every pair with an allowed
    key), and that event is the one read back when the store has room. *)
Theorem record_drops_invalid_keys
    (self : EventMetricType) (ping_name : option string) (p : string)
    (d : dict string string) (elapsed : N) (g : Glean) :
  disabled (meta (_inner self)) = false →
  target_ping self ping_name p →
  NoDup (keys d) →
  ∃ g' ev sanitized,
    record self (ODict (of_str_dict d)) elapsed g = Returns g'
    ∧ test_get_num_recorded_errors self InvalidExtraKey ping_name g'
      = test_get_num_recorded_errors self InvalidExtraKey ping_name g
        + length (filter (λ k, k ∉ allowed_extra_keys (_inner self)) (keys d))
    ∧ extra ev = Some sanitized
    ∧ (∀ k, k ∉ allowed_extra_keys (_inner self) → k ∉ keys sanitized)
    ∧ (∀ k, k ∈ keys d → k ∈ allowed_extra_keys (_inner self) → k ∈ keys sanitized)
    ∧ (has_room p g →
       (test_get_value self ping_name g').1
       = Some ((translate_no_extras <$> peek p g) ++ [ev])).
Proof.
  intros Hen Htarget Hnd.
  exists (Core.record (_inner self) d elapsed g), (new_event (_inner self) d elapsed g),
    (validate_extras (allowed_extra_keys (_inner self)) d).1.
  split_and!.
  - by apply record_str_dict.
  - destruct Htarget as [Hp Hin].
    rewrite !(test_get_num_recorded_errors_resolved _ _ _ p) by done.
    rewrite record_counters, decide_True by done.
    rewrite faults_invalid_extra_key. unfold overflow_count.
    destruct (decide (has_room p g)); simpl; lia.
  - done.
  - intros k Hk Hin. by apply validated_keys_allowed in Hin.
  - intros k Hin Hk. unfold keys in Hin. apply list_elem_of_fmap in Hin as ([k' v] & -> & Hin).
    unfold keys. apply list_elem_of_fmap. eexists (_, _). split; [|by apply validated_keeps].
    done.
  - intros Hroom. by apply test_get_value_recorded.
Qed.

Lemma record_drops_invalid_keys_witness :
  ∃ g' ev sanitized,
    record Samples.click
      (ODict (of_str_dict [("reason", "a"); ("bogus", "y"); ("other", "z")])) 1
      Samples.fresh = Returns g'
    ∧ test_get_num_recorded_errors Samples.click InvalidExtraKey None g'
      = test_get_num_recorded_errors Samples.click InvalidExtraKey None Samples.fresh
        + length (filter (λ k, k ∉ allowed_extra_keys (_inner Samples.click))
                    (keys [("reason", "a"); ("bogus", "y"); ("other", "z")]))
    ∧ extra ev = Some sanitized
    ∧ (∀ k, k ∉ allowed_extra_keys (_inner Samples.click) → k ∉ keys sanitized)
    ∧ (∀ k, k ∈ keys [("reason", "a"); ("bogus", "y"); ("other", "z")] →
         k ∈ allowed_extra_keys (_inner Samples.click) → k ∈ keys sanitized)
    ∧ (has_room "events" Samples.fresh →
       (test_get_value Samples.click None g').1
       = Some ((translate_no_extras <$> peek "events" Samples.fresh) ++ [ev])).
Proof.
  apply (record_drops_invalid_keys Samples.click None "events"
           [("reason", "a"); ("bogus", "y"); ("other", "z")] 1 Samples.fresh).
  - reflexivity.
  - split; [reflexivity | vm_compute; by left].
  - apply (bool_decide_unpack _). vm_compute. exact I.
Defined.

(** C6.  On an enabled metric with room in the store, for every pair of the
    extras dict whose key is allowed and whose value is longer than 100,
    [record] keeps the pair with the value cut to its first 100 characters,
    the event is stored and read back, and
    [test_get_num_recorded_errors(InvalidOverflow)] grows by one for each
    such pair. *)
Theorem record_truncates_long_values
    (self : EventMetricType) (ping_name : option string) (p : string)
    (d : dict string string) (k v : string) (elapsed : N) (g : Glean) :
  disabled (meta (_inner self)) = false →
  target_ping self ping_name p →
  has_room p g →
  NoDup (keys d) →
  (k, v) ∈ d →
  k ∈ allowed_extra_keys (_inner self) →
  MAX_LENGTH_EXTRA_VALUE < String.length v →
  ∃ g' ev sanitized,
    record self (ODict (of_str_dict d)) elapsed g = Returns g'
    ∧ (test_get_value self ping_name g').1
      = Some ((translate_no_extras <$> peek p g) ++ [ev])
    ∧ extra ev = Some sanitized
    ∧ (k, truncate MAX_LENGTH_EXTRA_VALUE v) ∈ sanitized
    ∧ String.length (truncate MAX_LENGTH_EXTRA_VALUE v) = 100
    ∧ (∃ rest, v = truncate MAX_LENGTH_EXTRA_VALUE v +:+ rest)
    ∧ test_get_num_recorded_errors self InvalidOverflow ping_name g'
      = test_get_num_recorded_errors self InvalidOverflow ping_name g
        + length (filter (λ kv, kv.1 ∈ allowed_extra_keys (_inner self)
                                ∧ MAX_LENGTH_EXTRA_VALUE < String.length kv.2) d).
Proof.
  intros Hen Htarget Hroom Hnd Hin Hk Hlen.
  exists (Core.record (_inner self) d elapsed g), (new_event (_inner self) d elapsed g),
    (validate_extras (allowed_extra_keys (_inner self)) d).1.
  split_and!.
  - by apply record_str_dict.
  - by apply test_get_value_recorded.
  - done.
  - pose proof (validated_keeps _ _ _ _ Hin Hk) as Hkept.
    by rewrite bool_decide_eq_true_2 in Hkept.
  - rewrite truncate_length. unfold MAX_LENGTH_EXTRA_VALUE in *. lia.
  - apply truncate_prefix.
  - destruct Htarget as [Hp Hpin].
    rewrite !(test_get_num_recorded_errors_resolved _ _ _ p) by done.
    rewrite record_counters, decide_True by done.
    rewrite faults_invalid_overflow. unfold overflow_count.
    rewrite decide_True by done. lia.
Qed.

Lemma record_truncates_long_values_witness :
  ∃ g' ev sanitized,
    record Samples.click
      (ODict (of_str_dict [("reason", Samples.xs 150); ("bogus", "y")])) 1
      Samples.fresh = Returns g'
    ∧ (test_get_value Samples.click None g').1
      = Some ((translate_no_extras <$> peek "events" Samples.fresh) ++ [ev])
    ∧ extra ev = Some sanitized
    ∧ ("reason", truncate MAX_LENGTH_EXTRA_VALUE (Samples.xs 150)) ∈ sanitized
    ∧ String.length (truncate MAX_LENGTH_EXTRA_VALUE (Samples.xs 150)) = 100
    ∧ (∃ rest, Samples.xs 150
               = truncate MAX_LENGTH_EXTRA_VALUE (Samples.xs 150) +:+ rest)
    ∧ test_get_num_recorded_errors Samples.click InvalidOverflow None g'
      = test_get_num_recorded_errors Samples.click InvalidOverflow None Samples.fresh
        + length (filter (λ kv, kv.1 ∈ allowed_extra_keys (_inner Samples.click)
                                ∧ MAX_LENGTH_EXTRA_VALUE < String.length kv.2)
                    [("reason", Samples.xs 150); ("bogus", "y")]).
Proof.
  apply (record_truncates_long_values Samples.click None "events"
           [("reason", Samples.xs 150); ("bogus", "y")]
           "reason" (Samples.xs 150) 1 Samples.fresh).
  - reflexivity.
  - split; [reflexivity | vm_compute; by left].
  - vm_compute. lia.
  - apply (bool_decide_unpack _). vm_compute. exact I.
  - by left.
  - vm_compute. by left.
  - vm_compute. lia.
Defined.

(* ===================================================================== *)
(** ** Order of the recorded events *)
(* ===================================================================== *)

Lemma chronological_empty (p : string) (g : Glean) :
  peek p g = [] → chronological p g.
Proof. intros Hpk. unfold chronological. rewrite Hpk. split; constructor. Qed.

(** The native [record] keeps every ping's sequence ordered by timestamp. *)
Lemma chronological_record (m : EventMetric) (extras : dict string string)
    (elapsed : N) (g : Glean) (p : string) :
  chronological p g → chronological p (Core.record m extras elapsed g).
Proof.
  intros [Hsorted Hbound].
  destruct (decide (disabled (meta m) = false)) as [Hen|Hdis];
    [|rewrite core_record_disabled by (by destruct (disabled _)); by split].
  destruct (core_record_enabled m extras elapsed g Hen) as (Hpk & _ & _ & Hck).
  unfold chronological. rewrite Hpk, Hck.
  assert (Hold : Forall (λ r, (timestamp r ≤ clock g + elapsed)%N) (peek p g)).
  { eapply Forall_impl; [exact Hbound|]. simpl. intros r Hr. lia. }
  destruct (decide _) as [_|_]; [|by split].
  split.
  - apply StronglySorted_app_2; [|done|repeat constructor].
    intros r1 r2 Hr1 Hr2. apply list_elem_of_singleton in Hr2 as ->.
    rewrite Forall_forall in Hold. apply (Hold r1 Hr1).
  - apply Forall_app. split; [done|]. constructor; [|constructor].
    unfold new_event. simpl. lia.
Qed.

(** The store never holds more events for a ping than the configured
    maximum. *)
Lemma record_respects_capacity (m : EventMetric) (extras : dict string string)
    (elapsed : N) (g : Glean) (p : string) :
  (length (peek p g) ≤ max_events g)%nat →
  (length (peek p (Core.record m extras elapsed g))
   ≤ max_events (Core.record m extras elapsed g))%nat.
Proof.
  intros Hcap.
  destruct (decide (disabled (meta m) = false)) as [Hen|Hdis];
    [|by rewrite core_record_disabled by (by destruct (disabled _))].
  destruct (core_record_enabled m extras elapsed g Hen) as (Hpk & _ & Hmx & _).
  rewrite Hpk, Hmx. destruct (decide _) as [[_ Hroom]|_]; [|done].
  rewrite length_app. unfold has_room in Hroom. simpl. lia.
Qed.

Lemma translate_no_extras_timestamp (r : RecordedEvent) :
  timestamp (translate_no_extras r) = timestamp r.
Proof. unfold translate_no_extras. by destruct (extra r). Qed.

(** C7.  On an enabled metric whose store has room for two more events,
    recording E1 and then E2 makes [test_get_value()] return the events read
    before followed by E1 and E2 in that order (exactly [E1, E2] from an
    empty store), with the timestamp of E1 not later than that of E2; and
    when the stored events were ordered by timestamp, so is the whole list
    returned. *)
Theorem records_read_back_in_order
    (self : EventMetricType) (ping_name : option string) (p : string)
    (extra1 extra2 : PyObj) (elapsed1 elapsed2 : N) (g : Glean) :
  disabled (meta (_inner self)) = false →
  target_ping self ping_name p →
  (length (peek p g) + 2 ≤ max_events g)%nat →
  ffi_accepts extra1 →
  ffi_accepts extra2 →
  ∃ g1 g2 E1 E2,
    record self extra1 elapsed1 g = Returns g1
    ∧ record self extra2 elapsed2 g1 = Returns g2
    ∧ (test_get_value self ping_name g1).1
      = Some ((translate_no_extras <$> peek p g) ++ [E1])
    ∧ (test_get_value self ping_name g2).1
      = Some ((translate_no_extras <$> peek p g) ++ [E1; E2])
    ∧ (timestamp E1 ≤ timestamp E2)%N
    ∧ timestamp E1 = (clock g + elapsed1)%N
    ∧ timestamp E2 = (clock g + elapsed1 + elapsed2)%N
    ∧ (chronological p g →
       StronglySorted by_timestamp ((translate_no_extras <$> peek p g) ++ [E1; E2])).
Proof.
  intros Hen Htarget Hcap (fwd1 & x1 & Hfwd1 & Hx1)%ffi_accepts_inv
    (fwd2 & x2 & Hfwd2 & Hx2)%ffi_accepts_inv.
  set (g1 := Core.record (_inner self) x1 elapsed1 g).
  set (g2 := Core.record (_inner self) x2 elapsed2 g1).
  destruct (core_record_enabled (_inner self) x1 elapsed1 g Hen)
    as (Hpk1 & _ & Hmx1 & Hck1).
  destruct (core_record_enabled (_inner self) x2 elapsed2 g1 Hen)
    as (Hpk2 & _ & _ & _).
  assert (Hroom : has_room p g) by (unfold has_room; lia).
  assert (Hpeek1 : peek p g1 = peek p g ++ [new_event (_inner self) x1 elapsed1 g]).
  { unfold g1. rewrite Hpk1, decide_True; [done|]. by destruct Htarget. }
  assert (Hroom1 : has_room p g1).
  { unfold has_room. fold g1 in Hmx1. rewrite Hpeek1, Hmx1, length_app. simpl. lia. }
  assert (Hpeek2 : peek p g2 = peek p g1 ++ [new_event (_inner self) x2 elapsed2 g1]).
  { unfold g2. rewrite Hpk2, decide_True; [done|]. by destruct Htarget. }
  exists g1, g2, (new_event (_inner self) x1 elapsed1 g),
    (new_event (_inner self) x2 elapsed2 g1).
  assert (Hread2 : (test_get_value self ping_name g2).1
    = Some ((translate_no_extras <$> peek p g)
            ++ [new_event (_inner self) x1 elapsed1 g;
                new_event (_inner self) x2 elapsed2 g1])).
  { unfold g2. rewrite (test_get_value_recorded self ping_name p) by done.
    rewrite Hpeek1, fmap_app, <- app_assoc. done. }
  split_and!.
  - by eapply record_defined.
  - by eapply record_defined.
  - by apply test_get_value_recorded.
  - exact Hread2.
  - unfold new_event. simpl. fold g1 in Hck1. rewrite Hck1. lia.
  - done.
  - unfold new_event. simpl. fold g1 in Hck1. by rewrite Hck1.
  - intros Hchron.
    assert (Hchron2 : chronological p g2) by (by do 2 apply chronological_record).
    destruct Hchron2 as [Hsorted _]. rewrite Hpeek2, Hpeek1 in Hsorted.
    apply (StronglySorted_fmap translate_no_extras by_timestamp by_timestamp) in Hsorted.
    + by rewrite !fmap_app, <- app_assoc in Hsorted.
    + intros a b. unfold by_timestamp. by rewrite !translate_no_extras_timestamp.
Qed.

Lemma records_read_back_in_order_witness :
  ∃ g1 g2 E1 E2,
    record Samples.click (ODict [(PyStr "reason", PyStr "first")]) 4 Samples.fresh
    = Returns g1
    ∧ record Samples.click (OVal PyNone) 0 g1 = Returns g2
    ∧ (test_get_value Samples.click None g1).1
      = Some ((translate_no_extras <$> peek "events" Samples.fresh) ++ [E1])
    ∧ (test_get_value Samples.click None g2).1
      = Some ((translate_no_extras <$> peek "events" Samples.fresh) ++ [E1; E2])
    ∧ (timestamp E1 ≤ timestamp E2)%N
    ∧ timestamp E1 = (clock Samples.fresh + 4)%N
    ∧ timestamp E2 = (clock Samples.fresh + 4 + 0)%N
    ∧ (chronological "events" Samples.fresh →
       StronglySorted by_timestamp
         ((translate_no_extras <$> peek "events" Samples.fresh) ++ [E1; E2])).
Proof.
  apply (records_read_back_in_order Samples.click None "events"
           (ODict [(PyStr "reason", PyStr "first")]) (OVal PyNone) 4 0 Samples.fresh).
  - reflexivity.
  - split; [reflexivity | vm_compute; by left].
  - vm_compute. lia.
  - eexists. vm_compute. reflexivity.
  - eexists. vm_compute. reflexivity.
Defined.

(* ===================================================================== *)
(** ** Disabled metrics *)
(* ===================================================================== *)

(** C8.  The claim as stated fails: the disabled check sits in the native
    metric, behind the key coercion of [record]; on a disabled metric a dict
    with an integer key of 4301 digits still makes [record] raise
    [ValueError]. *)
Lemma record_on_disabled_metric_raises_on_long_int_key :
  disabled (meta (_inner Samples.click_disabled)) = true
  ∧ record Samples.click_disabled (ODict [(PyInt Samples.long_int, PyStr "x")]) 0
      Samples.fresh
    = Raises ValueError.
Proof.
  split; [reflexivity|]. apply (record_raises_at _ []), key_to_str_long_int.
Qed.

(** C8, amended.  On a disabled metric [record] never changes the storage:
    whenever it returns, the storage is as it was.  For an argument that is
    not a dict, or a dict whose values are strings and whose keys are
    strings, enum members declaring a string, or other keys that [str]
    converts, it does return, so [test_get_value] reads what it read before
    (absent when nothing was stored) and every error counter keeps its
    value. *)
Theorem record_on_disabled_metric_is_noop
    (self : EventMetricType) (extra : PyObj) (elapsed : N) (g : Glean) :
  disabled (meta (_inner self)) = true →
  acceptable extra = true →
  ∃ g',
    record self extra elapsed g = Returns g'
    ∧ g' = g
    ∧ (∀ ping_name, (test_get_value self ping_name g').1
                    = (test_get_value self ping_name g).1)
    ∧ (∀ ping_name, nothing_recorded self ping_name g →
                    (test_get_value self ping_name g').1 = None)
    ∧ (∀ error_type ping_name,
         test_get_num_recorded_errors self error_type ping_name g'
         = test_get_num_recorded_errors self error_type ping_name g)
    ∧ (∀ other g'', record self other elapsed g = Returns g'' → g'' = g).
Proof.
  intros Hdis Hacc.
  destruct (acceptable_handed_over extra Hacc) as (fwd & extras & Hfwd & Hx).
  exists g. split_and!; try done.
  - rewrite (record_defined _ _ fwd extras) by done. by rewrite core_record_disabled.
  - intros ping_name. apply test_get_value_nothing_recorded.
  - intros other g''. unfold record.
    destruct (record_extra other) as [fwd'|e]; [|done]. cbn [mbind Outcome_bind].
    destruct (lower fwd') as [extras'|e]; [|done]. cbn [mbind Outcome_bind].
    rewrite core_record_disabled by done. by intros [= <-].
Qed.

Lemma record_on_disabled_metric_is_noop_witness :
  ∃ g',
    record Samples.click_disabled (ODict [(PyStr "reason", PyStr "a")]) 9 Samples.fresh
    = Returns g'
    ∧ g' = Samples.fresh
    ∧ (∀ ping_name, (test_get_value Samples.click_disabled ping_name g').1
                    = (test_get_value Samples.click_disabled ping_name Samples.fresh).1)
    ∧ (∀ ping_name, nothing_recorded Samples.click_disabled ping_name Samples.fresh →
                    (test_get_value Samples.click_disabled ping_name g').1 = None)
    ∧ (∀ error_type ping_name,
         test_get_num_recorded_errors Samples.click_disabled error_type ping_name g'
         = test_get_num_recorded_errors Samples.click_disabled error_type ping_name
             Samples.fresh)
    ∧ (∀ other g'',
         record Samples.click_disabled other 9 Samples.fresh = Returns g'' →
         g'' = Samples.fresh).
Proof.
  apply (record_on_disabled_metric_is_noop Samples.click_disabled
           (ODict [(PyStr "reason", PyStr "a")]) 9 Samples.fresh).
  - reflexivity.
  - vm_compute. reflexivity.
Defined.

(* ===================================================================== *)
(** ** Reading twice *)
(* ===================================================================== *)





(** With a [record] between the two reads the second list is longer. *)
Example test_get_value_after_record_differs :
  (λ g', (test_get_value Samples.click None g').1)
    <$> record Samples.click (OVal PyNone) 3 Samples.without_extras
  = Returns (Some [ {| timestamp := 1; category := "ui"; name := "click";
                       extra := Some [] |};
                    {| timestamp := 4; category := "ui"; name := "click";
                       extra := Some [] |} ]).
Proof. vm_compute. reflexivity. Qed.

(* ===================================================================== *)
(** ** Arguments that are neither a dict nor an [EventExtras] *)
(* ===================================================================== *)

(** C10.  For every argument [v] that is neither a dict nor an
    [EventExtras] instance, [record] hands the empty dict to the native
    method exactly as it does for [None]: the call returns, the validator
    finds no fault, and a counter moves only if the store is full. *)
Theorem record_other_argument_like_absent
    (self : EventMetricType) (v : PyVal) (elapsed : N) (g : Glean) :
  record_extra (OVal v) = Returns []
  ∧ record self (OVal v) elapsed g = record self (OVal PyNone) elapsed g
  ∧ record self (OVal v) elapsed g = Returns (Core.record (_inner self) [] elapsed g)
  ∧ (validate_extras (allowed_extra_keys (_inner self)) []).2 = []
  ∧ ∀ error_type p,
      get_num_recorded_errors error_type p (Core.record (_inner self) [] elapsed g)
      = get_num_recorded_errors error_type p g
        + (if decide (counts_for self p) then overflow_count error_type p g else 0).
Proof.
  split_and!; try done.
  intros e p. rewrite record_counters.
  destruct (decide (counts_for self p)); [|done].
  unfold validate_extras, count_faults. simpl. lia.
Qed.

(* ===================================================================== *)
(** ** The dict comprehension of [record] *)
(* ===================================================================== *)

Lemma coerce_keys_app {V} (d1 d2 cd : dict PyVal V) :
  coerce_keys (d1 ++ d2) = Returns cd →
  ∃ cd1 cd2, cd = cd1 ++ cd2 ∧ coerce_keys d1 = Returns cd1
             ∧ coerce_keys d2 = Returns cd2.
Proof.
  unfold coerce_keys. rewrite map_keys_Forall2.
  intros (cd1 & cd2 & H1 & H2 & ->)%Forall2_app_inv_l.
  exists cd1, cd2. by rewrite !map_keys_Forall2.
Qed.

Lemma assign_all_value_map (h : PyVal → PyVal) (acc cd : dict PyVal PyVal) :
  assign_all (prod_map id h <$> acc) (prod_map id h <$> cd)
  = prod_map id h <$> assign_all acc cd.
Proof.
  revert acc. induction cd as [|[k v] cd IH]; intros acc; [done|].
  rewrite fmap_cons. cbn [prod_map fst snd id]. rewrite !assign_all_cons, <- IH.
  f_equal. clear IH. induction acc as [|[k' v'] acc IH]; [done|].
  rewrite fmap_cons. cbn [setitem prod_map fst snd id].
  destruct (py_eq k' k); [done|]. by rewrite IH, fmap_cons.
Qed.

Lemma coerce_keys_value_map (h : PyVal → PyVal) (d : dict PyVal PyVal) :
  coerce_keys (prod_map id h <$> d)
  = fmap (M := list) (prod_map id h) <$> coerce_keys d.
Proof.
  unfold coerce_keys. induction d as [|[k v] d IH]; [done|].
  rewrite fmap_cons. cbn [map_keys prod_map fst snd id].
  destruct (key_to_str k) as [c|e]; [|done]. cbn [mbind Outcome_bind].
  rewrite IH. by destruct (map_keys key_to_str d).
Qed.


Lemma record_extra_unmerged (d cd : dict PyVal PyVal) :
  coerce_keys d = Returns cd → distinct_keys cd →
  record_extra (ODict d) = Returns cd.
Proof.
  intros Hcd Hd. rewrite record_extra_ODict, Hcd. cbn [mbind Outcome_bind].
  f_equal. by apply (assign_all_distinct []).
Qed.

(** X1.  For a dict whose keys [str] converts, the dict handed to the native
    method holds under every key [c] the value of the last item of the dict
    passed in whose coerced key equals [c], and nothing when no item has
    such a key: of items whose keys meet after coercion the later value
    wins, and no value is altered. *)
Theorem record_extra_last_value_wins (d : dict PyVal PyVal) :
  coercible d = true →
  ∃ handed_over,
    record_extra (ODict d) = Returns handed_over
    ∧ ∀ c, getitem handed_over c
           = snd <$> last (filter (λ kv, coerces_to kv.1 c = true) d).
Proof.
  intros Hd. destruct (record_extra_coercible d Hd) as (cd & Hcd & Hfwd).
  exists (assign_all [] cd). split; [done|].
  intros c. by apply record_extra_dict_getitem.
Qed.

Lemma record_extra_last_value_wins_witness :
  ∃ handed_over,
    record_extra (ODict [(PyInt 7, PyStr "b"); (PyStr "reason", PyInt 1);
                         (PyStr "7", PyStr "c")])
    = Returns handed_over
    ∧ ∀ c, getitem handed_over c
           = snd <$> last (filter (λ kv, coerces_to kv.1 c = true)
                             [(PyInt 7, PyStr "b"); (PyStr "reason", PyInt 1);
                              (PyStr "7", PyStr "c")]).
Proof.
  apply (record_extra_last_value_wins
           [(PyInt 7, PyStr "b"); (PyStr "reason", PyInt 1); (PyStr "7", PyStr "c")]).
  vm_compute. reflexivity.
Defined.



(** X3.  For a dict whose keys [str] converts, whatever list of items is
    passed in, no two keys of the dict handed over are equal; when it is a
    mapping of strings, its keys are pairwise different strings. *)
Theorem record_extra_keys_distinct (d : dict PyVal PyVal) :
  coercible d = true →
  ∃ handed_over,
    record_extra (ODict d) = Returns handed_over
    ∧ distinct_keys handed_over
    ∧ match as_string_map handed_over with
      | Some m => NoDup (keys m)
      | None => True
      end.
Proof.
  intros Hd. destruct (record_extra_coercible d Hd) as (cd & Hcd & Hfwd).
  pose proof (record_extra_dict_distinct d _ Hfwd) as Hdist.
  exists (assign_all [] cd). split_and!; [done|done|].
  destruct (as_string_map _) as [m|] eqn:Hm; [|done].
  apply as_string_map_Some in Hm. rewrite Hm in Hdist.
  by apply distinct_keys_of_str_dict.
Qed.

Lemma record_extra_keys_distinct_witness :
  ∃ handed_over,
    record_extra (ODict [(PyInt 7, PyStr "b"); (PyStr "7", PyStr "c");
                         (PyInt 7, PyStr "d")])
    = Returns handed_over
    ∧ distinct_keys handed_over
    ∧ match as_string_map handed_over with
      | Some m => NoDup (keys m)
      | None => True
      end.
Proof.
  apply (record_extra_keys_distinct
           [(PyInt 7, PyStr "b"); (PyStr "7", PyStr "c"); (PyInt 7, PyStr "d")]).
  vm_compute. reflexivity.
Defined.

(** X4.  For a dict whose keys [str] converts, the dict handed over never
    has more items than the dict passed in, and it is empty only for the
    empty dict. *)
Theorem record_extra_length (d : dict PyVal PyVal) :
  coercible d = true →
  ∃ handed_over,
    record_extra (ODict d) = Returns handed_over
    ∧ (length handed_over ≤ length d)%nat
    ∧ (handed_over = [] ↔ d = []).
Proof.
  intros Hd. destruct (record_extra_coercible d Hd) as (cd & Hcd & Hfwd).
  exists (assign_all [] cd). split; [done|].
  destruct (assign_all_length [] cd) as [Hlen Hne].
  pose proof (coerced_length d cd Hcd) as Hsame.
  split; [simpl in Hlen; lia|]. split.
  - intros Hnil. destruct cd as [|kv cd]; [by destruct d|]. by destruct Hne.
  - intros ->. by injection Hcd as <-.
Qed.

Lemma record_extra_length_witness :
  ∃ handed_over,
    record_extra (ODict [(PyInt 7, PyStr "b"); (PyStr "7", PyStr "c")])
    = Returns handed_over
    ∧ (length handed_over ≤ length [(PyInt 7, PyStr "b"); (PyStr "7", PyStr "c")])%nat
    ∧ (handed_over = [] ↔ [(PyInt 7, PyStr "b"); (PyStr "7", PyStr "c")] = []).
Proof.
  apply (record_extra_length [(PyInt 7, PyStr "b"); (PyStr "7", PyStr "c")]).
  vm_compute. reflexivity.
Defined.



(** X6.  An [EventExtras] object is recorded exactly like the dict its
    [to_ffi_extra()] returns: the native method receives that dict as it is. *)
Theorem record_event_extras_like_dict (d : dict string string) :
  NoDup (keys d) →
  record_extra (OExtras d) = record_extra (ODict (of_str_dict d))
  ∧ record_extra (OExtras d) ≫= lower = Returns d
  ∧ ∀ self elapsed g,
      record self (OExtras d) elapsed g = record self (ODict (of_str_dict d)) elapsed g.
Proof.
  intros Hnd.
  assert (Heq : record_extra (OExtras d) = record_extra (ODict (of_str_dict d))).
  { by rewrite record_extra_str_dict. }
  split_and!; [done| |].
  - unfold record_extra. simpl. apply lower_of_str_dict.
  - intros self elapsed g. unfold record. by rewrite Heq.
Qed.

Lemma record_event_extras_like_dict_witness :
  record_extra (OExtras [("reason", "a"); ("source", "b")])
  = record_extra (ODict (of_str_dict [("reason", "a"); ("source", "b")]))
  ∧ record_extra (OExtras [("reason", "a"); ("source", "b")]) ≫= lower
    = Returns [("reason", "a"); ("source", "b")]
  ∧ ∀ self elapsed g,
      record self (OExtras [("reason", "a"); ("source", "b")]) elapsed g
      = record self (ODict (of_str_dict [("reason", "a"); ("source", "b")])) elapsed g.
Proof.
  apply (record_event_extras_like_dict [("reason", "a"); ("source", "b")]).
  apply (bool_decide_unpack _). vm_compute. exact I.
Defined.

(** X7.  When the dict handed over is a mapping of strings, coercing it
    once more changes nothing: passing the coerced dict gives the same
    call. *)
Theorem record_extra_idempotent (d : dict PyVal PyVal) :
  ffi_accepts (ODict d) →
  ∃ handed_over,
    record_extra (ODict d) = Returns handed_over
    ∧ record_extra (ODict handed_over) = Returns handed_over
    ∧ ∀ self elapsed g,
        record self (ODict handed_over) elapsed g = record self (ODict d) elapsed g.
Proof.
  intros (fwd & m & Hfwd & Hm)%ffi_accepts_inv.
  assert (Heq : record_extra (ODict fwd) = Returns fwd).
  { pose proof (record_extra_dict_distinct d fwd Hfwd) as Hd.
    apply as_string_map_Some in Hm. rewrite Hm in *.
    apply record_extra_str_dict. by apply distinct_keys_of_str_dict. }
  exists fwd. split_and!; [done|done|].
  intros self elapsed g. unfold record. by rewrite Heq, Hfwd.
Qed.

Lemma record_extra_idempotent_witness :
  ∃ handed_over,
    record_extra (ODict [(PyEnum "ClickKeys" "REASON" (PyStr "reason"), PyStr "a");
                         (PyInt 7, PyStr "b"); (PyStr "7", PyStr "c")])
    = Returns handed_over
    ∧ record_extra (ODict handed_over) = Returns handed_over
    ∧ ∀ self elapsed g,
        record self (ODict handed_over) elapsed g
        = record self (ODict [(PyEnum "ClickKeys" "REASON" (PyStr "reason"), PyStr "a");
                              (PyInt 7, PyStr "b"); (PyStr "7", PyStr "c")]) elapsed g.
Proof.
  apply (record_extra_idempotent
           [(PyEnum "ClickKeys" "REASON" (PyStr "reason"), PyStr "a");
            (PyInt 7, PyStr "b"); (PyStr "7", PyStr "c")]).
  eexists. vm_compute. reflexivity.
Defined.

(** Coercing again does change a key that is not a string. *)
Example record_extra_not_idempotent_on_int_value :
  record_extra (ODict [(PyEnum "ClickKeys" "REASON" (PyInt 0), PyStr "x")])
  = Returns [(PyInt 0, PyStr "x")]
  ∧ record_extra (ODict [(PyInt 0, PyStr "x")]) = Returns [(PyStr "0", PyStr "x")].
Proof. vm_compute. done. Qed.

(** X10.  A dict keyed by pairwise different integers of at most 4300
    digits is handed over with every item kept in place, each key written in
    decimal, and is a mapping of strings. *)
Theorem record_extra_int_keys (d : dict Z string) :
  NoDup (keys d) →
  Forall (λ z, (decimal_digits z ≤ default_max_str_digits)%nat) (keys d) →
  record_extra (ODict (prod_map PyInt PyStr <$> d))
  = Returns (of_str_dict (prod_map pretty id <$> d))
  ∧ ffi_accepts (ODict (prod_map PyInt PyStr <$> d)).
Proof.
  intros Hnd Hsmall.
  assert (Hco : coerce_keys (prod_map PyInt PyStr <$> d)
                = Returns (of_str_dict (prod_map pretty id <$> d))).
  { unfold coerce_keys, of_str_dict, keys in *. clear Hnd.
    induction d as [|[z v] d IH]; [done|].
    rewrite fmap_cons, Forall_cons in Hsmall. destruct Hsmall as [Hz Hsmall].
    rewrite !fmap_cons. cbn [map_keys prod_map fst snd id].
    cbn [fst] in Hz. apply exceeds_max_str_digits_false in Hz.
    assert (key_to_str (PyInt z) = Returns (PyStr (pretty z))) as ->
      by (unfold key_to_str; simpl; by rewrite Hz).
    cbn [mbind Outcome_bind]. by rewrite IH. }
  assert (Heq : record_extra (ODict (prod_map PyInt PyStr <$> d))
                = Returns (of_str_dict (prod_map pretty id <$> d))).
  { apply (record_extra_unmerged _ _ Hco).
    apply distinct_keys_of_str_dict. unfold keys in *.
    rewrite <- list_fmap_compose.
    replace (fst ∘ prod_map pretty id <$> d) with (pretty <$> d.*1)
      by (rewrite <- list_fmap_compose; apply list_fmap_ext; by intros _ [z v] _).
    by apply (NoDup_fmap_2 _). }
  split; [done|]. apply ffi_accepts_inv. eexists _, _. split; [done|].
  apply as_string_map_of_str_dict.
Qed.

Lemma record_extra_int_keys_witness :
  record_extra (ODict (prod_map PyInt PyStr <$> [(7%Z, "a"); ((-3)%Z, "b")]))
  = Returns (of_str_dict (prod_map pretty id <$> [(7%Z, "a"); ((-3)%Z, "b")]))
  ∧ ffi_accepts (ODict (prod_map PyInt PyStr <$> [(7%Z, "a"); ((-3)%Z, "b")])).
Proof.
  apply (record_extra_int_keys [(7%Z, "a"); ((-3)%Z, "b")]).
  - apply (bool_decide_unpack _). vm_compute. exact I.
  - repeat apply Forall_cons_2; [..|apply Forall_nil_2];
      apply Nat.leb_le; vm_compute; reflexivity.
Defined.

(** X11.  [record] never looks at the values: rewriting every value of the
    dict passed in with the same function rewrites the values of the dict
    handed over in the same way and leaves its keys and their order as they
    were, and leaves an exception as it was. *)
Theorem record_extra_values_untouched (h : PyVal → PyVal) (d : dict PyVal PyVal) :
  record_extra (ODict (prod_map id h <$> d))
  = fmap (M := list) (prod_map id h) <$> record_extra (ODict d)
  ∧ keys <$> record_extra (ODict (prod_map id h <$> d))
    = keys <$> record_extra (ODict d).
Proof.
  assert (Heq : record_extra (ODict (prod_map id h <$> d))
                = fmap (M := list) (prod_map id h) <$> record_extra (ODict d)).
  { rewrite !record_extra_ODict, coerce_keys_value_map.
    destruct (coerce_keys d) as [cd|e]; [|done].
    cbn [fmap Outcome_fmap mbind Outcome_bind]. f_equal.
    apply (assign_all_value_map h []). }
  split; [done|]. rewrite Heq.
  destruct (record_extra (ODict d)) as [fwd|e]; [|done].
  cbn [fmap Outcome_fmap]. f_equal. unfold keys. rewrite <- list_fmap_compose.
  apply list_fmap_ext. by intros _ [k v] _.
Qed.

(** X12.  Keys are handed over in the order in which they first occur: the
    keys for the first items of a dict stay in front, in the same order,
    whatever items follow. *)
Theorem record_extra_keys_in_first_occurrence_order (d1 d2 : dict PyVal PyVal) :
  coercible (d1 ++ d2) = true →
  ∃ first whole,
    record_extra (ODict d1) = Returns first
    ∧ record_extra (ODict (d1 ++ d2)) = Returns whole
    ∧ keys first `prefix_of` keys whole.
Proof.
  intros Hd. destruct (record_extra_coercible _ Hd) as (cd & Hcd & Hfwd).
  destruct (coerce_keys_app d1 d2 cd Hcd) as (cd1 & cd2 & -> & Hcd1 & Hcd2).
  exists (assign_all [] cd1), (assign_all [] (cd1 ++ cd2)). split_and!.
  - by rewrite record_extra_ODict, Hcd1.
  - done.
  - unfold assign_all at 2. rewrite foldl_app. apply keys_assign_all_prefix.
Qed.

Lemma record_extra_keys_in_first_occurrence_order_witness :
  ∃ first whole,
    record_extra (ODict [(PyInt 7, PyStr "b"); (PyStr "reason", PyStr "a")])
    = Returns first
    ∧ record_extra (ODict ([(PyInt 7, PyStr "b"); (PyStr "reason", PyStr "a")]
                           ++ [(PyStr "7", PyStr "c"); (PyNone, PyStr "d")]))
      = Returns whole
    ∧ keys first `prefix_of` keys whole.
Proof.
  apply (record_extra_keys_in_first_occurrence_order
           [(PyInt 7, PyStr "b"); (PyStr "reason", PyStr "a")]
           [(PyStr "7", PyStr "c"); (PyNone, PyStr "d")]).
  vm_compute. reflexivity.
Defined.



(* ===================================================================== *)
(** ** What [test_get_value] does with the native result *)
(* ===================================================================== *)

Lemma translate_recordings_Some (l : list RecordedEvent) :
  translate_recordings (Some l) = Some (translate_no_extras <$> l).
Proof. by destruct l. Qed.

Lemma translate_no_extras_fields (e : RecordedEvent) :
  timestamp (translate_no_extras e) = timestamp e
  ∧ category (translate_no_extras e) = category e
  ∧ name (translate_no_extras e) = name e
  ∧ extra (translate_no_extras e) = Some (default [] (extra e)).
Proof. unfold translate_no_extras. by destruct (extra e) eqn:Hx. Qed.

(** X8.  [test_get_value] returns what the native call returned with one
    change only: [None] stays [None], a list keeps its length and order
    (the empty list stays the empty list), and each event keeps its
    timestamp, category and name, while its [extra] is the native one, or
    the empty dict where the native one was [None]. *)
Theorem test_get_value_changes_only_absent_extras
    (self : EventMetricType) (ping_name : option string) (g : Glean) :
  (test_get_value self ping_name g).1
  = translate_recordings (Core.test_get_value (_inner self) ping_name g).1
  ∧ ∀ native : option (list RecordedEvent),
      match native, translate_recordings native with
      | None, None => True
      | Some l, Some l' =>
          length l' = length l
          ∧ ∀ i e, l !! i = Some e →
              ∃ e', l' !! i = Some e'
                    ∧ timestamp e' = timestamp e
                    ∧ category e' = category e
                    ∧ name e' = name e
                    ∧ extra e' = Some (default [] (extra e))
      | _, _ => False
      end.
Proof.
  split; [by unfold test_get_value; destruct (Core.test_get_value _ _ _)|].
  intros [l|]; [|done].
  rewrite translate_recordings_Some. split; [by rewrite length_fmap|].
  intros i e Hi. exists (translate_no_extras e).
  split; [by rewrite list_lookup_fmap, Hi|]. apply translate_no_extras_fields.
Qed.

(** X9.  A native result in which every event has extras is returned as it
    is. *)
Theorem test_get_value_keeps_events_with_extras (l : list RecordedEvent) :
  Forall (λ r, extra r ≠ None) l →
  translate_recordings (Some l) = Some l
  ∧ ∀ self ping_name g,
      (Core.test_get_value (_inner self) ping_name g).1 = Some l →
      (test_get_value self ping_name g).1 = Some l.
Proof.
  intros Hall.
  assert (Heq : translate_recordings (Some l) = Some l).
  { rewrite translate_recordings_Some. f_equal.
    induction Hall as [|r l Hr Hall IH]; [done|].
    rewrite fmap_cons, IH. by rewrite translate_no_extras_id. }
  split; [done|]. intros self ping_name g Hnative.
  assert ((test_get_value self ping_name g).1
          = translate_recordings (Core.test_get_value (_inner self) ping_name g).1) as ->
    by (unfold test_get_value; by destruct (Core.test_get_value _ _ _)).
  by rewrite Hnative.
Qed.

Lemma test_get_value_keeps_events_with_extras_witness :
  translate_recordings
    (Some [ {| timestamp := 1; category := "ui"; name := "click";
               extra := Some [("reason", "a")] |};
            {| timestamp := 4; category := "ui"; name := "click";
               extra := Some [] |} ])
  = Some [ {| timestamp := 1; category := "ui"; name := "click";
              extra := Some [("reason", "a")] |};
           {| timestamp := 4; category := "ui"; name := "click";
              extra := Some [] |} ]
  ∧ ∀ self ping_name g,
      (Core.test_get_value (_inner self) ping_name g).1
      = Some [ {| timestamp := 1; category := "ui"; name := "click";
                  extra := Some [("reason", "a")] |};
               {| timestamp := 4; category := "ui"; name := "click";
                  extra := Some [] |} ] →
      (test_get_value self ping_name g).1
      = Some [ {| timestamp := 1; category := "ui"; name := "click";
                  extra := Some [("reason", "a")] |};
               {| timestamp := 4; category := "ui"; name := "click";
                  extra := Some [] |} ].
Proof.
  apply (test_get_value_keeps_events_with_extras
           [ {| timestamp := 1; category := "ui"; name := "click";
                extra := Some [("reason", "a")] |};
             {| timestamp := 4; category := "ui"; name := "click";
                extra := Some [] |} ]).
  repeat constructor; simpl; discriminate.
Defined.

(* ===================================================================== *)
(** ** The scenarios of the specification, evaluated *)
(* ===================================================================== *)

Example str_of_int_key : Py.str (PyInt (-42)) = Returns "-42".
Proof. vm_compute. reflexivity. Qed.

(** An integer of 4300 digits is converted; one of 4301 digits is not,
    whatever its sign. *)
Example str_of_long_int :
  (∃ s, Py.str (PyInt (Z.of_N (10 ^ 4299)%N)) = Returns s)
  ∧ Py.str (PyInt Samples.long_int) = Raises ValueError
  ∧ Py.str (PyInt (- Samples.long_int)) = Raises ValueError.
Proof.
  split_and!.
  - unfold Py.str.
    assert (exceeds_max_str_digits (Z.of_N (10 ^ 4299)%N) = false) as ->.
    { apply exceeds_max_str_digits_false. change 4299%N with (N.of_nat 4299).
      rewrite decimal_digits_pow10. unfold default_max_str_digits. lia. }
    eexists. reflexivity.
  - unfold Py.str. by rewrite exceeds_max_str_digits_long_int.
  - unfold Py.str.
    by rewrite exceeds_max_str_digits_opp, exceeds_max_str_digits_long_int.
Qed.

(** [record({"reason": "x"*150, "bogus": "y"})] with ["reason"] the only
    allowed key. *)
Example scenario_overflow_and_bogus_key :
  (λ g, ((test_get_value Samples.click None g).1,
         test_get_num_recorded_errors Samples.click InvalidOverflow None g,
         test_get_num_recorded_errors Samples.click InvalidExtraKey None g))
  <$> record Samples.click
        (ODict [(PyStr "reason", PyStr (Samples.xs 150)); (PyStr "bogus", PyStr "y")])
        7 Samples.fresh
  = Returns (Some [ {| timestamp := 7; category := "ui"; name := "click";
                       extra := Some [("reason", Samples.xs 100)] |} ], 1, 1).
Proof. vm_compute. reflexivity. Qed.

(** [record({"reason": "a"})] on a disabled metric. *)
Example scenario_disabled :
  (λ g, ((test_get_value Samples.click_disabled None g).1,
         test_get_num_recorded_errors Samples.click_disabled InvalidOverflow None g,
         test_get_num_recorded_errors Samples.click_disabled InvalidExtraKey None g,
         test_get_num_recorded_errors Samples.click_disabled InvalidValue None g))
  <$> record Samples.click_disabled (ODict [(PyStr "reason", PyStr "a")]) 7 Samples.fresh
  = Returns (None, 0, 0, 0).
Proof. vm_compute. reflexivity. Qed.

(** An event stored without extras is read back with the empty dict. *)
Example scenario_absent_extras_translated :
  (test_get_value Samples.click None Samples.without_extras).1
  = Some [ {| timestamp := 1; category := "ui"; name := "click"; extra := Some [] |} ].
Proof. vm_compute. reflexivity. Qed.

(** An instance of the base class [EventExtras] records an event without
    extras. *)
Example scenario_base_event_extras :
  (λ g, (test_get_value Samples.click None g).1)
  <$> record Samples.click EventExtras_base 2 Samples.fresh
  = Returns (Some [ {| timestamp := 2; category := "ui"; name := "click";
                       extra := Some [] |} ]).
Proof. vm_compute. reflexivity. Qed.

(** A store that is full drops the event and counts the overflow. *)
Example scenario_full_store :
  (λ g, ((test_get_value Samples.click None g).1,
         test_get_num_recorded_errors Samples.click InvalidOverflow None g))
  <$> record Samples.click (OVal PyNone) 2
        {| max_events := 0; events := ∅; errors := ∅; clock := 0 |}
  = Returns (None, 1).
Proof. vm_compute. reflexivity. Qed.

(** A value that is not a [str], and a key that coerces to something else
    than a [str], stop the call at the boundary of the native method. *)
Example scenario_not_a_string :
  record Samples.click (ODict [(PyStr "reason", PyInt 5)]) 1 Samples.fresh
  = Raises AttributeError
  ∧ record Samples.click (ODict [(PyEnum "ClickKeys" "REASON" (PyInt 0), PyStr "x")])
      1 Samples.fresh
    = Raises AttributeError.
Proof. vm_compute. done. Qed.
